(** * Bisection root finder: a shallow embedding of [bisection.py]

    The solver works on Python floats.  The properties proved here are
    about exact arithmetic: numbers are exact rationals ([Q]), so that
    every definition still evaluates.  The loop is transcribed a second
    time on binary64 numbers, for the places where rounding decides.  The wall clock [time.perf_counter] is a
    sequence of readings; the state threaded through the code is the
    number of readings taken so far.  The [while] loop has no iteration
    bound of its own, hence it is run with fuel.  Text sent to [print] is
    not modelled. *)

From Stdlib Require Import ZArith QArith Qabs Qpower Qround Lia Lqa String Bool.
From Stdlib Require Import PrimFloat.

Local Open Scope Q_scope.

(** ** Comparisons, as Python evaluates them *)

Definition Qlt_bool (x y : Q) : bool := negb (Qle_bool y x).
Definition Qgt_bool (x y : Q) : bool := Qlt_bool y x.
Definition Qne_bool (x y : Q) : bool := negb (Qeq_bool x y).

(** ** Exceptions and outcomes *)

(** The two exception classes the module raises.  The message of the
    [ValueError] interpolates the interval, which is kept as data. *)
Inductive exn : Type :=
| AssertionError (msg : string)
| ValueError (a b : Q).

(** The names under which the specification knows them. *)
Definition InvalidIntervalError : exn :=
  AssertionError "The interval must be defined as `[a, b]` with `a < b`.".
Definition InvalidToleranceError : exn :=
  AssertionError "The tolerance must be a positive number.".
Definition OutOfRangeError : exn :=
  AssertionError "The value `y` must be in the interval `[a, b]`.".
Definition NonMonotonicError (a b : Q) : exn := ValueError a b.

Inductive outcome (A : Type) : Type :=
| Returned (v : A)
| Raised (e : exn)
| OutOfFuel.

Arguments Returned {A} v.
Arguments Raised {A} e.
Arguments OutOfFuel {A}.

(** ** The monad: clock ticks and exceptions *)

Module ClockMonad.

(** A computation receives the number of clock readings taken so far and
    hands back the new count with its value. *)
Definition M (A : Type) : Type := nat -> outcome (A * nat).

Definition ret {A : Type} (v : A) : M A := fun n => Returned (v, n).

Definition bind {A B : Type} (m : M A) (k : A -> M B) : M B :=
  fun n =>
    match m n with
    | Returned (v, n') => k v n'
    | Raised e => Raised e
    | OutOfFuel => OutOfFuel
    end.

Definition raise {A : Type} (e : exn) : M A := fun _ => Raised e.

Definition out_of_fuel {A : Type} : M A := fun _ => OutOfFuel.

(** [assert cond, msg] *)
Definition assert_ (cond : bool) (msg : string) : M unit :=
  if cond then ret tt else raise (AssertionError msg).

End ClockMonad.

Import ClockMonad.

Notation "x <- m ;; k" := (bind m (fun x => k))
  (at level 61, m at next level, right associativity).
Notation "m ;;; k" := (bind m (fun _ => k))
  (at level 61, right associativity).

(** ** The program *)

Inductive exit_kind : Type :=
| Converged   (* the [return] inside the tolerance test *)
| TimedOut.   (* the [return] inside the time-limit test *)

(** What one pass through the body of the [while] does. *)
Inductive iteration : Type :=
| Leave (k : exit_kind) (result : Q * Q * Q)
| Again (a b : Q).

Definition default_run_time_limit : Q := 60.

Section Program.

(** [perf_counter n] is the [n]-th reading of [time.perf_counter()]. *)
Variable perf_counter : nat -> Q.

Definition time_perf_counter : M Q :=
  fun n => Returned (perf_counter n, S n).

Definition check_strict_monotonicity
    (function : Q -> Q) (a b : Q) : M bool :=
  if Qgt_bool (function a) (function b) then ret false
  else if Qlt_bool (function a) (function b) then ret true
  else raise (ValueError a b).

(** The value the loop compares with the tolerance. *)
Definition func_midpoint_of (function : Q -> Q) (y c : Q) : Q :=
  if Qeq_bool y 0 then function c else y - function c.

(** The nested [if] that moves one end of the bracket. *)
Definition bracket_update
    (is_increasing : bool) (func_midpoint a b c : Q) : Q * Q :=
  if is_increasing then
    if Qgt_bool func_midpoint 0 then (a, c) else (c, b)
  else
    if Qgt_bool func_midpoint 0 then (c, b) else (a, c).

Definition loop_body
    (function : Q -> Q) (tolerance : Q) (is_increasing : bool)
    (y run_time_limit start_time a b : Q) : M iteration :=
  let c := (a + b) / 2 in
  let func_midpoint := func_midpoint_of function y c in
  if Qle_bool (Qabs func_midpoint) tolerance then
    now <- time_perf_counter ;;
    ret (Leave Converged (c, now - start_time, func_midpoint))
  else
    let ab := bracket_update is_increasing func_midpoint a b c in
    now <- time_perf_counter ;;
    if Qgt_bool (now - start_time) run_time_limit then
      now' <- time_perf_counter ;;
      ret (Leave TimedOut (c, now' - start_time, func_midpoint))
    else ret (Again (fst ab) (snd ab)).

Fixpoint while_loop
    (fuel : nat) (function : Q -> Q) (tolerance : Q)
    (is_increasing : bool) (y run_time_limit start_time a b : Q)
    : M (exit_kind * (Q * Q * Q)) :=
  match fuel with
  | O => out_of_fuel
  | S fuel' =>
      it <- loop_body function tolerance is_increasing y run_time_limit
              start_time a b ;;
      match it with
      | Leave k result => ret (k, result)
      | Again a' b' =>
          while_loop fuel' function tolerance is_increasing y
            run_time_limit start_time a' b'
      end
  end.

(** The brackets the loop goes through: [brackets k ... a b n] is the
    bracket and the tick count after [k] passes none of which left the
    loop; there is none when an earlier pass left it. *)
Fixpoint brackets
    (k : nat) (function : Q -> Q) (tolerance : Q)
    (is_increasing : bool) (y run_time_limit start_time a b : Q)
    (n : nat) : option (Q * Q * nat) :=
  match k with
  | O => Some (a, b, n)
  | S k' =>
      match loop_body function tolerance is_increasing y run_time_limit
              start_time a b n with
      | Returned (Again a' b', n') =>
          brackets k' function tolerance is_increasing y run_time_limit
            start_time a' b' n'
      | _ => None
      end
  end.

(** [find_root], with the [return] statement it left through recorded
    next to the tuple it returns. *)
Definition find_root_traced
    (function : Q -> Q) (a b tolerance : Q) (is_increasing : bool)
    (y run_time_limit : Q) (fuel : nat) : M (exit_kind * (Q * Q * Q)) :=
  start_time <- time_perf_counter ;;
  assert_ (Qlt_bool a b) "The interval must be defined as `[a, b]` with `a < b`." ;;;
  assert_ (Qgt_bool tolerance 0) "The tolerance must be a positive number." ;;;
  is_increasing <- check_strict_monotonicity function a b ;;
  let is_increasing :=
    if Qne_bool y 0 then negb is_increasing else is_increasing in
  while_loop fuel function tolerance is_increasing y run_time_limit
    start_time a b.

Definition find_root
    (function : Q -> Q) (a b tolerance : Q) (is_increasing : bool)
    (y run_time_limit : Q) (fuel : nat) : M (Q * Q * Q) :=
  r <- find_root_traced function a b tolerance is_increasing y
         run_time_limit fuel ;;
  ret (snd r).

Definition find_inverse_value
    (function : Q -> Q) (y a b tolerance : Q) (is_increasing : bool)
    (fuel : nat) : M (Q * Q) :=
  start_time <- time_perf_counter ;;
  assert_ (Qle_bool a y && Qle_bool y b) "The value `y` must be in the interval `[a, b]`." ;;;
  r <- find_root function a b tolerance is_increasing y 180 fuel ;;
  let '(inverse_value, _, _) := r in
  now <- time_perf_counter ;;
  ret (inverse_value, now - start_time).

End Program.

(** The function of the demonstration, [(x - 2) ** 3]. *)
Definition function (x : Q) : Q := (x - 2) ^ 3.

Definition frozen_clock : nat -> Q := fun _ => 0.
Definition ticking_clock : nat -> Q := fun n => inject_Z (Z.of_nat n).


(** A clock on which every reading is 100 seconds after the one before. *)
Definition slow_clock : nat -> Q := fun n => 100 * inject_Z (Z.of_nat n).

(** ** Vocabulary of the specification *)

Definition strictly_increasing_on (f : Q -> Q) (a b : Q) : Prop :=
  forall x z : Q, a <= x -> x < z -> z <= b -> f x < f z.

Definition strictly_decreasing_on (f : Q -> Q) (a b : Q) : Prop :=
  forall x z : Q, a <= x -> x < z -> z <= b -> f z < f x.

Definition strictly_monotonic_on (f : Q -> Q) (a b : Q) : Prop :=
  strictly_increasing_on f a b \/ strictly_decreasing_on f a b.

(** [r] is a root, inside [[a, b]], of the function the loop tests. *)
Definition brackets_root (f : Q -> Q) (y a b r : Q) : Prop :=
  a <= r /\ r <= b /\ func_midpoint_of f y r == 0.

Definition continuous_at (f : Q -> Q) (a b r : Q) : Prop :=
  forall eps : Q, 0 < eps ->
    exists delta : Q, 0 < delta /\
      forall x : Q, a <= x -> x <= b ->
        Qabs (x - r) < delta -> Qabs (f x - f r) <= eps.

(** No reading of the clock is later than the limit allows. *)
Definition never_late (perf_counter : nat -> Q) (n : nat) (limit : Q) : Prop :=
  forall m : nat, perf_counter m - perf_counter n <= limit.

Definition clock_monotone (perf_counter : nat -> Q) : Prop :=
  forall i j : nat, (i <= j)%nat -> perf_counter i <= perf_counter j.

(** The flag [find_root] runs its loop with, once the checks are passed:
    what the endpoints say, inverted for a target other than zero. *)
Definition loop_flag (f : Q -> Q) (a b y : Q) : bool :=
  let m := Qlt_bool (f a) (f b) in
  if Qne_bool y 0 then negb m else m.

(** How the two [return] statements show in a result that came out of
    the bracket reached at tick count [n1]. *)
Definition left_through
    (perf_counter : nat -> Q) (tolerance run_time_limit start_time : Q)
    (k : exit_kind) (n1 : nat) (t v : Q) (n' : nat) : Prop :=
  match k with
  | Converged =>
      Qabs v <= tolerance /\ t = perf_counter n1 - start_time /\ n' = S n1
  | TimedOut =>
      ~ Qabs v <= tolerance /\
      run_time_limit < perf_counter n1 - start_time /\
      t = perf_counter (S n1) - start_time /\ n' = S (S n1)
  end.

(** The table of the specification. *)
Inductive monotonicity : Type := increasing | decreasing.
Inductive midpoint_sign : Type := positive | negative_or_zero.

Definition spec_bracket_update
    (m : monotonicity) (s : midpoint_sign) (a b c : Q) : Q * Q :=
  match m, s with
  | increasing, positive => (a, c)          (* b = c *)
  | increasing, negative_or_zero => (c, b)  (* a = c *)
  | decreasing, positive => (c, b)          (* a = c *)
  | decreasing, negative_or_zero => (a, c)  (* b = c *)
  end.

Definition monotonicity_of (flag : bool) : monotonicity :=
  if flag then increasing else decreasing.

(** A strictly increasing function with a jump at its root. *)
Definition jump (x : Q) : Q :=
  if Qlt_bool x 0 then x - 1 else if Qeq_bool x 0 then 0 else x + 1.

Definition identity (x : Q) : Q := x.

(** ** Further vocabulary *)

(** The demonstration: the two calls of [main] with the arguments it
    passes and the defaults of the signatures; what it prints is not
    modelled, the results of the two calls are handed back instead. *)
Definition main (perf_counter : nat -> Q) (fuel : nat)
    : M ((Q * Q * Q) * (Q * Q)) :=
  r <- find_root perf_counter function (-5) 5 (1 # 10000000000) true 0
         default_run_time_limit fuel ;;
  i <- find_inverse_value perf_counter function 3 0 5 (1 # 10000000000)
         true fuel ;;
  ret (r, i).

Definition lipschitz_on (f : Q -> Q) (L a b : Q) : Prop :=
  forall x z : Q, a <= x -> x <= b -> a <= z -> z <= b ->
    Qabs (f x - f z) <= L * Qabs (x - z).

(** The values of [g] at the two ends have opposite signs, one of them
    possibly zero. *)
Definition sign_change (g : Q -> Q) (a b : Q) : Prop :=
  (g a <= 0 /\ 0 <= g b) \/ (0 <= g a /\ g b <= 0).

(** The same, with the orientation the flag announces. *)
Definition sign_bracket (flag : bool) (g : Q -> Q) (a b : Q) : Prop :=
  if flag then g a <= 0 /\ 0 <= g b else 0 <= g a /\ g b <= 0.

(** Every reading of the clock is later than the one before. *)
Definition clock_advances (perf_counter : nat -> Q) : Prop :=
  forall n : nat, perf_counter n < perf_counter (S n).

(** The number of clock readings a call has made when it leaves in the
    pass after [j] passes that stayed in the loop. *)
Definition readings (k : exit_kind) (j : nat) : nat :=
  match k with
  | Converged => (j + 2)%nat
  | TimedOut => (j + 3)%nat
  end.

Definition square (x : Q) : Q := x * x.

Definition identity_shift (x : Q) : Q := x - 2.

(** ** The loop on binary64

    The same loop on the numbers Python computes with, for the places
    where rounding shows.  The comparisons are those of IEEE 754, as in
    Python. *)

Inductive f64_iteration : Type :=
| F64_Leave (k : exit_kind) (result : float * float * float)
| F64_Again (a b : float).

(** [None] stands for the [ValueError]. *)
Definition f64_check_strict_monotonicity
    (function : float -> float) (a b : float) : option bool :=
  if PrimFloat.ltb (function b) (function a) then Some false
  else if PrimFloat.ltb (function a) (function b) then Some true
  else None.

Definition f64_func_midpoint_of
    (function : float -> float) (y c : float) : float :=
  if PrimFloat.eqb y 0%float then function c
  else PrimFloat.sub y (function c).

Definition f64_bracket_update
    (is_increasing : bool) (func_midpoint a b c : float) : float * float :=
  if is_increasing then
    if PrimFloat.ltb 0%float func_midpoint then (a, c) else (c, b)
  else
    if PrimFloat.ltb 0%float func_midpoint then (c, b) else (a, c).

Definition f64_loop_body
    (perf_counter : nat -> float)
    (function : float -> float) (tolerance : float) (is_increasing : bool)
    (y run_time_limit start_time a b : float) : M f64_iteration :=
  let c := PrimFloat.div (PrimFloat.add a b) 2%float in
  let func_midpoint := f64_func_midpoint_of function y c in
  if PrimFloat.leb (PrimFloat.abs func_midpoint) tolerance then
    fun n =>
      Returned
        (F64_Leave Converged
           (c, PrimFloat.sub (perf_counter n) start_time, func_midpoint),
         S n)
  else
    let ab := f64_bracket_update is_increasing func_midpoint a b c in
    fun n =>
      if PrimFloat.ltb run_time_limit
           (PrimFloat.sub (perf_counter n) start_time)
      then
        Returned
          (F64_Leave TimedOut
             (c, PrimFloat.sub (perf_counter (S n)) start_time,
              func_midpoint),
           S (S n))
      else Returned (F64_Again (fst ab) (snd ab), S n).

Fixpoint f64_while_loop
    (perf_counter : nat -> float) (fuel : nat)
    (function : float -> float) (tolerance : float) (is_increasing : bool)
    (y run_time_limit start_time a b : float)
    : M (exit_kind * (float * float * float)) :=
  match fuel with
  | O => out_of_fuel
  | S fuel' =>
      it <- f64_loop_body perf_counter function tolerance is_increasing y
              run_time_limit start_time a b ;;
      match it with
      | F64_Leave k result => ret (k, result)
      | F64_Again a' b' =>
          f64_while_loop perf_counter fuel' function tolerance
            is_increasing y run_time_limit start_time a' b'
      end
  end.

(** The bracket after [k] passes none of which left the loop. *)
Fixpoint f64_brackets
    (perf_counter : nat -> float) (k : nat)
    (function : float -> float) (tolerance : float) (is_increasing : bool)
    (y run_time_limit start_time a b : float) (n : nat)
    : option (float * float * nat) :=
  match k with
  | O => Some (a, b, n)
  | S k' =>
      match f64_loop_body perf_counter function tolerance is_increasing y
              run_time_limit start_time a b n with
      | Returned (F64_Again a' b', n') =>
          f64_brackets perf_counter k' function tolerance is_increasing y
            run_time_limit start_time a' b' n'
      | _ => None
      end
  end.

Definition f64_frozen_clock : nat -> float := fun _ => 0%float.

(** [x - 0.17], with the nearest binary64 number for 0.17. *)
Definition f64_line (x : float) : float :=
  PrimFloat.sub x 0x1.5c28f5c28f5c3p-3%float.

(** ** Reading the boolean tests *)

Lemma Qle_bool_spec (x y : Q) : reflect (x <= y) (Qle_bool x y).
Proof.
  apply iff_reflect. symmetry. apply Qle_bool_iff.
Qed.

Lemma Qeq_bool_spec (x y : Q) : reflect (x == y) (Qeq_bool x y).
Proof.
  apply iff_reflect. symmetry. apply Qeq_bool_iff.
Qed.

Lemma Qlt_bool_spec (x y : Q) : reflect (x < y) (Qlt_bool x y).
Proof.
  unfold Qlt_bool.
  destruct (Qle_bool_spec y x) as [Hle | Hnle]; constructor.
  - apply Qle_not_lt. exact Hle.
  - apply Qnot_le_lt. exact Hnle.
Qed.

Lemma Qgt_bool_spec (x y : Q) : reflect (y < x) (Qgt_bool x y).
Proof.
  unfold Qgt_bool. apply Qlt_bool_spec.
Qed.

Lemma Qne_bool_spec (x y : Q) : reflect (~ x == y) (Qne_bool x y).
Proof.
  unfold Qne_bool.
  destruct (Qeq_bool_spec x y) as [Heq | Hne]; constructor; tauto.
Qed.

Lemma midpoint_between (a b : Q) :
  a < b -> a < (a + b) / 2 /\ (a + b) / 2 < b.
Proof.
  intros Hab.
  assert (Hc : (a + b) / 2 == (a + b) * (1 # 2)) by (field).
  rewrite Hc. split; lra.
Qed.

Lemma midpoint_eq (a b : Q) : (a + b) / 2 == (a + b) * (1 # 2).
Proof.
  field.
Qed.

Lemma bracket_update_cases (is_increasing : bool) (v a b c : Q) :
  bracket_update is_increasing v a b c = (a, c) \/
  bracket_update is_increasing v a b c = (c, b).
Proof.
  unfold bracket_update.
  destruct is_increasing; destruct (Qgt_bool v 0); auto.
Qed.

(** ** One pass through the loop *)

Section OnePass.

Variable perf_counter : nat -> Q.
Variable function : Q -> Q.
Variables (tolerance : Q) (is_increasing : bool).
Variables (y run_time_limit start_time : Q).

Let body := loop_body perf_counter function tolerance is_increasing y
              run_time_limit start_time.

Lemma loop_body_converged (a b : Q) (n : nat) :
  Qabs (func_midpoint_of function y ((a + b) / 2)) <= tolerance ->
  body a b n =
  Returned (Leave Converged ((a + b) / 2, perf_counter n - start_time,
                             func_midpoint_of function y ((a + b) / 2)),
            S n).
Proof.
  intros Hconv. unfold body, loop_body.
  destruct (Qle_bool_spec
              (Qabs (func_midpoint_of function y ((a + b) / 2)))
              tolerance) as [_ | Hn]; [reflexivity | contradiction].
Qed.

Lemma loop_body_timed_out (a b : Q) (n : nat) :
  ~ Qabs (func_midpoint_of function y ((a + b) / 2)) <= tolerance ->
  run_time_limit < perf_counter n - start_time ->
  body a b n =
  Returned (Leave TimedOut ((a + b) / 2, perf_counter (S n) - start_time,
                            func_midpoint_of function y ((a + b) / 2)),
            S (S n)).
Proof.
  intros Hconv Hlate. unfold body, loop_body.
  destruct (Qle_bool_spec
              (Qabs (func_midpoint_of function y ((a + b) / 2)))
              tolerance) as [Hc | _]; [contradiction |].
  unfold bind, time_perf_counter.
  destruct (Qgt_bool_spec (perf_counter n - start_time) run_time_limit)
    as [_ | Hn]; [reflexivity | contradiction].
Qed.

Lemma loop_body_again (a b : Q) (n : nat) :
  ~ Qabs (func_midpoint_of function y ((a + b) / 2)) <= tolerance ->
  ~ run_time_limit < perf_counter n - start_time ->
  body a b n =
  Returned
    (Again
       (fst (bracket_update is_increasing
               (func_midpoint_of function y ((a + b) / 2)) a b
               ((a + b) / 2)))
       (snd (bracket_update is_increasing
               (func_midpoint_of function y ((a + b) / 2)) a b
               ((a + b) / 2))),
     S n).
Proof.
  intros Hconv Hlate. unfold body, loop_body.
  destruct (Qle_bool_spec
              (Qabs (func_midpoint_of function y ((a + b) / 2)))
              tolerance) as [Hc | _]; [contradiction |].
  unfold bind, time_perf_counter.
  destruct (Qgt_bool_spec (perf_counter n - start_time) run_time_limit)
    as [Hl | _]; [contradiction | reflexivity].
Qed.

(** The three ways a pass can go, and nothing else. *)
Lemma loop_body_cases (a b : Q) (n : nat) :
  let c := (a + b) / 2 in
  let v := func_midpoint_of function y c in
  (Qabs v <= tolerance /\
   body a b n = Returned (Leave Converged (c, perf_counter n - start_time, v),
                          S n))
  \/ (~ Qabs v <= tolerance /\
      run_time_limit < perf_counter n - start_time /\
      body a b n =
      Returned (Leave TimedOut (c, perf_counter (S n) - start_time, v),
                S (S n)))
  \/ (~ Qabs v <= tolerance /\
      ~ run_time_limit < perf_counter n - start_time /\
      body a b n =
      Returned (Again (fst (bracket_update is_increasing v a b c))
                      (snd (bracket_update is_increasing v a b c)),
                S n)).
Proof.
  intros c v.
  destruct (Qle_bool_spec (Qabs v) tolerance) as [Hc | Hc].
  - left. split; [exact Hc |]. apply loop_body_converged. exact Hc.
  - right.
    destruct (Qgt_bool_spec (perf_counter n - start_time) run_time_limit)
      as [Hl | Hl].
    + left. repeat split; try assumption.
      apply loop_body_timed_out; assumption.
    + right. repeat split; try assumption.
      apply loop_body_again; assumption.
Qed.

Let passes (k : nat) :=
  brackets perf_counter k function tolerance is_increasing y
    run_time_limit start_time.

Let loop (fuel : nat) :=
  while_loop perf_counter fuel function tolerance is_increasing y
    run_time_limit start_time.

Lemma while_loop_brackets (k : nat) :
  forall (a b : Q) (n : nat) (a' b' : Q) (n' : nat) (fuel : nat),
    passes k a b n = Some (a', b', n') ->
    loop (k + fuel) a b n = loop fuel a' b' n'.
Proof.
  unfold passes.
  induction k as [| k IH]; intros a b n a' b' n' fuel Hk; simpl in Hk.
  - injection Hk as -> -> ->. reflexivity.
  - unfold loop. simpl. unfold bind at 1. fold body. fold body in Hk.
    destruct (body a b n) as [[[ek r | a1 b1] n1] | e |]; try discriminate.
    apply (IH a1 b1 n1 a' b' n' fuel Hk).
Qed.

End OnePass.

(** ** Powers of two *)

Lemma pow2_succ (k : nat) :
  2 ^ Z.of_nat (S k) == 2 * 2 ^ Z.of_nat k.
Proof.
  rewrite Nat2Z.inj_succ. unfold Z.succ.
  rewrite Qpower_plus by discriminate.
  change (2 ^ 1) with 2. ring.
Qed.

Lemma pow2_pos (k : nat) : 0 < 2 ^ Z.of_nat k.
Proof.
  apply Qpower_0_lt. reflexivity.
Qed.

(** ** Entering the loop *)

Section Prelude.

Variable perf_counter : nat -> Q.
Variable function : Q -> Q.

Lemma check_strict_monotonicity_ok (a b : Q) (n : nat) :
  ~ function a == function b ->
  check_strict_monotonicity function a b n =
  Returned (Qlt_bool (function a) (function b), n).
Proof.
  intros Hne. unfold check_strict_monotonicity.
  destruct (Qgt_bool_spec (function a) (function b)) as [Hgt | Hngt].
  - destruct (Qlt_bool_spec (function a) (function b)) as [Hlt | _].
    + exfalso. lra.
    + reflexivity.
  - destruct (Qlt_bool_spec (function a) (function b)) as [_ | Hnlt].
    + reflexivity.
    + exfalso. apply Hne. lra.
Qed.

Lemma check_strict_monotonicity_tie (a b : Q) (n : nat) :
  function a == function b ->
  check_strict_monotonicity function a b n = Raised (ValueError a b).
Proof.
  intros Heq. unfold check_strict_monotonicity.
  destruct (Qgt_bool_spec (function a) (function b)) as [Hgt | _].
  - exfalso. lra.
  - destruct (Qlt_bool_spec (function a) (function b)) as [Hlt | _].
    + exfalso. lra.
    + reflexivity.
Qed.

(** With the three checks passed, [find_root] is its loop, started one
    clock reading later with the flag [loop_flag]. *)
Lemma find_root_traced_checked
    (a b tolerance : Q) (is_increasing : bool) (y run_time_limit : Q)
    (fuel n : nat) :
  a < b -> 0 < tolerance -> ~ function a == function b ->
  find_root_traced perf_counter function a b tolerance is_increasing y
    run_time_limit fuel n =
  while_loop perf_counter fuel function tolerance
    (loop_flag function a b y) y run_time_limit (perf_counter n) a b (S n).
Proof.
  intros Hab Htol Hne.
  unfold find_root_traced, bind at 1, time_perf_counter.
  unfold bind at 1, assert_.
  destruct (Qlt_bool_spec a b) as [_ | Hn]; [| contradiction].
  unfold ret at 1. unfold bind at 1.
  destruct (Qgt_bool_spec tolerance 0) as [_ | Hn]; [| contradiction].
  unfold ret at 1. unfold bind at 1.
  rewrite (check_strict_monotonicity_ok a b (S n) Hne).
  reflexivity.
Qed.

Lemma find_root_traced_bad_interval
    (a b tolerance : Q) (is_increasing : bool) (y run_time_limit : Q)
    (fuel n : nat) :
  ~ a < b ->
  find_root_traced perf_counter function a b tolerance is_increasing y
    run_time_limit fuel n = Raised InvalidIntervalError.
Proof.
  intros Hab.
  unfold find_root_traced, bind at 1, time_perf_counter.
  unfold bind at 1, assert_.
  destruct (Qlt_bool_spec a b) as [H | _]; [contradiction |].
  reflexivity.
Qed.

Lemma find_root_traced_bad_tolerance
    (a b tolerance : Q) (is_increasing : bool) (y run_time_limit : Q)
    (fuel n : nat) :
  a < b -> ~ 0 < tolerance ->
  find_root_traced perf_counter function a b tolerance is_increasing y
    run_time_limit fuel n = Raised InvalidToleranceError.
Proof.
  intros Hab Htol.
  unfold find_root_traced, bind at 1, time_perf_counter.
  unfold bind at 1, assert_.
  destruct (Qlt_bool_spec a b) as [_ | Hn]; [| contradiction].
  unfold ret at 1. unfold bind at 1.
  destruct (Qgt_bool_spec tolerance 0) as [H | _]; [contradiction |].
  reflexivity.
Qed.

Lemma find_root_traced_tie
    (a b tolerance : Q) (is_increasing : bool) (y run_time_limit : Q)
    (fuel n : nat) :
  a < b -> 0 < tolerance -> function a == function b ->
  find_root_traced perf_counter function a b tolerance is_increasing y
    run_time_limit fuel n = Raised (NonMonotonicError a b).
Proof.
  intros Hab Htol Heq.
  unfold find_root_traced, bind at 1, time_perf_counter.
  unfold bind at 1, assert_.
  destruct (Qlt_bool_spec a b) as [_ | Hn]; [| contradiction].
  unfold ret at 1. unfold bind at 1.
  destruct (Qgt_bool_spec tolerance 0) as [_ | Hn]; [| contradiction].
  unfold ret at 1. unfold bind at 1.
  rewrite (check_strict_monotonicity_tie a b (S n) Heq).
  reflexivity.
Qed.

(** The loop itself raises nothing. *)
Lemma while_loop_never_raises
    (tolerance : Q) (flag : bool) (y run_time_limit start_time : Q)
    (fuel : nat) :
  forall (a b : Q) (n : nat) (e : exn),
    while_loop perf_counter fuel function tolerance flag y run_time_limit
      start_time a b n <> Raised e.
Proof.
  induction fuel as [| fuel IH]; intros a b n e; simpl.
  - discriminate.
  - unfold bind at 1.
    destruct (loop_body_cases perf_counter function tolerance flag y
                run_time_limit start_time a b n)
      as [[_ ->] | [[_ [_ ->]] | [_ [_ ->]]]].
    + discriminate.
    + discriminate.
    + apply IH.
Qed.

(** [find_root] is [find_root_traced] with the mark wiped. *)
Lemma find_root_erases
    (a b tolerance : Q) (is_increasing : bool) (y run_time_limit : Q)
    (fuel n : nat) :
  find_root perf_counter function a b tolerance is_increasing y
    run_time_limit fuel n =
  match find_root_traced perf_counter function a b tolerance is_increasing
          y run_time_limit fuel n with
  | Returned (r, n') => Returned (snd r, n')
  | Raised e => Raised e
  | OutOfFuel => OutOfFuel
  end.
Proof.
  unfold find_root, bind.
  destruct (find_root_traced perf_counter function a b tolerance
              is_increasing y run_time_limit fuel n)
    as [[r n'] | e |]; reflexivity.
Qed.

End Prelude.

(** ** Failures *)

(** C3.  [find_root] fails exactly when a precondition is violated.  The
    checks run in the order of the text: an interval with [a >= b] raises
    [InvalidIntervalError]; with a valid interval, a tolerance [<= 0]
    raises [InvalidToleranceError]; with both valid, equal values at the
    two endpoints raise [NonMonotonicError]; and when the three
    preconditions hold, no exception is raised, whatever the fuel. *)
Theorem find_root_fails_on_preconditions_only
    (perf_counter : nat -> Q) (f : Q -> Q) (a b tolerance : Q)
    (is_increasing : bool) (y run_time_limit : Q) (fuel n : nat) :
  let call :=
    find_root perf_counter f a b tolerance is_increasing y run_time_limit
      fuel n in
  (b <= a -> call = Raised InvalidIntervalError)
  /\ (a < b -> tolerance <= 0 -> call = Raised InvalidToleranceError)
  /\ (a < b -> 0 < tolerance -> f a == f b ->
      call = Raised (NonMonotonicError a b))
  /\ (a < b -> 0 < tolerance -> ~ f a == f b ->
      forall e : exn, call <> Raised e)
  /\ (forall e : exn, call = Raised e ->
      b <= a \/ tolerance <= 0 \/ f a == f b).
Proof.
  intros call. unfold call. rewrite find_root_erases.
  repeat split.
  - intros Hba.
    rewrite find_root_traced_bad_interval; [reflexivity | lra].
  - intros Hab Htol.
    rewrite find_root_traced_bad_tolerance; [reflexivity | lra | lra].
  - intros Hab Htol Heq.
    rewrite find_root_traced_tie; [reflexivity | assumption ..].
  - intros Hab Htol Hne e.
    rewrite find_root_traced_checked by assumption.
    pose proof (while_loop_never_raises perf_counter f tolerance
                  (loop_flag f a b y) y run_time_limit (perf_counter n)
                  fuel a b (S n)) as Hloop.
    destruct (while_loop perf_counter fuel f tolerance (loop_flag f a b y)
                y run_time_limit (perf_counter n) a b (S n))
      as [[r n'] | e' |].
    + discriminate.
    + exfalso. apply (Hloop e'). reflexivity.
    + discriminate.
  - intros e He.
    destruct (Qlt_le_dec a b) as [Hab | Hba]; [| left; exact Hba].
    destruct (Qlt_le_dec 0 tolerance) as [Htol | Htol];
      [| right; left; exact Htol].
    right. right.
    destruct (Qeq_dec (f a) (f b)) as [Heq | Hne]; [exact Heq |].
    exfalso. revert He.
    rewrite find_root_traced_checked by assumption.
    pose proof (while_loop_never_raises perf_counter f tolerance
                  (loop_flag f a b y) y run_time_limit (perf_counter n)
                  fuel a b (S n)) as Hloop.
    destruct (while_loop perf_counter fuel f tolerance (loop_flag f a b y)
                y run_time_limit (perf_counter n) a b (S n))
      as [[r n'] | e' |].
    + discriminate.
    + exfalso. apply (Hloop e'). reflexivity.
    + discriminate.
Qed.

Lemma find_root_fails_on_preconditions_only_witness :
  find_root frozen_clock function 1 0 (1 # 10) true 0 60 5%nat O =
    Raised InvalidIntervalError
  /\ find_root frozen_clock function 0 1 (-1 # 10) true 0 60 5%nat O =
       Raised InvalidToleranceError
  /\ find_root frozen_clock (fun _ => 1) 0 1 (1 # 10) true 0 60 5%nat O =
       Raised (NonMonotonicError 0 1)
  /\ find_root frozen_clock function (-5) 5 (1 # 10) true 0 60 5%nat O <>
       Raised InvalidIntervalError.
Proof.
  split; [| split; [| split]].
  - apply (find_root_fails_on_preconditions_only
             frozen_clock function 1 0 (1 # 10) true 0 60 5%nat O).
    vm_compute. discriminate.
  - apply (find_root_fails_on_preconditions_only
             frozen_clock function 0 1 (-1 # 10) true 0 60 5%nat O).
    + vm_compute. reflexivity.
    + vm_compute. discriminate.
  - apply (find_root_fails_on_preconditions_only
             frozen_clock (fun _ => 1) 0 1 (1 # 10) true 0 60 5%nat O).
    + vm_compute. reflexivity.
    + vm_compute. reflexivity.
    + vm_compute. reflexivity.
  - apply (find_root_fails_on_preconditions_only
             frozen_clock function (-5) 5 (1 # 10) true 0 60 5%nat O).
    + vm_compute. reflexivity.
    + vm_compute. reflexivity.
    + vm_compute. discriminate.
Defined.

(** ** The bracket *)

Lemma bracket_update_table (flag : bool) (v a b c : Q) :
  (0 < v ->
   bracket_update flag v a b c =
   spec_bracket_update (monotonicity_of flag) positive a b c)
  /\ (v <= 0 ->
      bracket_update flag v a b c =
      spec_bracket_update (monotonicity_of flag) negative_or_zero a b c).
Proof.
  unfold bracket_update.
  split; intros Hv; destruct (Qgt_bool_spec v 0) as [Hp | Hp];
    destruct flag; simpl; try reflexivity; exfalso; lra.
Qed.

Lemma Qlt_of_neq_nlt (x z : Q) : ~ x == z -> ~ x < z -> z < x.
Proof.
  intros Hne Hnlt.
  destruct (Q_dec x z) as [[H | H] | H]; [contradiction | exact H | contradiction].
Qed.

Lemma loop_flag_meaning (f : Q -> Q) (a b y : Q) :
  ~ f a == f b ->
  (y == 0 -> (loop_flag f a b y = true <-> f a < f b))
  /\ (~ y == 0 -> (loop_flag f a b y = true <-> f b < f a)).
Proof.
  intros Hne. unfold loop_flag.
  destruct (Qne_bool_spec y 0) as [Hy | Hy];
    destruct (Qlt_bool_spec (f a) (f b)) as [Hlt | Hlt]; simpl.
  - split; [intros Hy'; contradiction |].
    intros _. split; [discriminate | intros H; exfalso; lra].
  - split; [intros Hy'; contradiction |].
    intros _. split; [intros _ | reflexivity].
    apply Qlt_of_neq_nlt; assumption.
  - split; [| intros Hy'; exfalso; apply Hy; intros H; contradiction].
    intros _. split; [intros _; exact Hlt | reflexivity].
  - split; [| intros Hy'; exfalso; apply Hy; intros H; contradiction].
    intros _. split; [discriminate | intros H; contradiction].
Qed.

Section Halving.

Variable perf_counter : nat -> Q.
Variable function : Q -> Q.
Variables (tolerance : Q) (is_increasing : bool).
Variables (y run_time_limit start_time : Q).

(** A pass that stays in the loop replaces one end by the midpoint. *)
Lemma loop_body_again_inv (a b : Q) (n : nat) (a' b' : Q) (n' : nat) :
  loop_body perf_counter function tolerance is_increasing y run_time_limit
    start_time a b n = Returned (Again a' b', n') ->
  ((a' = a /\ b' = (a + b) / 2) \/ (a' = (a + b) / 2 /\ b' = b))
  /\ n' = S n
  /\ ~ Qabs (func_midpoint_of function y ((a + b) / 2)) <= tolerance
  /\ ~ run_time_limit < perf_counter n - start_time
  /\ (a', b') =
     bracket_update is_increasing
       (func_midpoint_of function y ((a + b) / 2)) a b ((a + b) / 2).
Proof.
  intros Hbody.
  destruct (loop_body_cases perf_counter function tolerance is_increasing
              y run_time_limit start_time a b n)
    as [[_ H] | [[_ [_ H]] | [Hc [Hl H]]]];
    rewrite H in Hbody; try discriminate.
  injection Hbody as Ha Hb Hn.
  repeat split; try assumption; try (symmetry; assumption).
  - destruct (bracket_update_cases is_increasing
                (func_midpoint_of function y ((a + b) / 2)) a b
                ((a + b) / 2)) as [E | E];
      rewrite E in Ha, Hb; simpl in Ha, Hb; subst a' b'; auto.
  - rewrite <- Ha, <- Hb. symmetry. apply surjective_pairing.
Qed.

Lemma brackets_width (k : nat) :
  forall (a0 b0 : Q) (n0 : nat) (a b : Q) (n : nat),
    brackets perf_counter k function tolerance is_increasing y
      run_time_limit start_time a0 b0 n0 = Some (a, b, n) ->
    b - a == (b0 - a0) / 2 ^ Z.of_nat k.
Proof.
  induction k as [| k IH]; intros a0 b0 n0 a b n Hk.
  - simpl in Hk. injection Hk as -> -> ->.
    change (2 ^ Z.of_nat 0) with 1. field.
  - simpl in Hk.
    destruct (loop_body perf_counter function tolerance is_increasing y
                run_time_limit start_time a0 b0 n0)
      as [[[ek r | a1 b1] n1] | e |] eqn:Hbody; try discriminate.
    apply loop_body_again_inv in Hbody.
    destruct Hbody as [Hends _].
    rewrite (IH a1 b1 n1 a b n Hk), pow2_succ.
    pose proof (pow2_pos k) as Hp.
    destruct Hends as [[-> ->] | [-> ->]]; field; lra.
Qed.

End Halving.

(** ** What a returning call went through *)

Section Returns.

Variable perf_counter : nat -> Q.
Variable function : Q -> Q.
Variables (tolerance : Q) (flag : bool).
Variables (y run_time_limit start_time : Q).

Let left :=
  left_through perf_counter tolerance run_time_limit start_time.

Lemma while_loop_returns_inv (fuel : nat) :
  forall (a b : Q) (n : nat) (k : exit_kind) (x t v : Q) (n' : nat),
    a < b ->
    while_loop perf_counter fuel function tolerance flag y run_time_limit
      start_time a b n = Returned (k, (x, t, v), n') ->
    exists (j : nat) (a1 b1 : Q) (n1 : nat),
      (j < fuel)%nat /\
      brackets perf_counter j function tolerance flag y run_time_limit
        start_time a b n = Some (a1, b1, n1) /\
      a <= a1 /\ a1 < b1 /\ b1 <= b /\
      x = (a1 + b1) / 2 /\ v = func_midpoint_of function y x /\
      left k n1 t v n'.
Proof.
  induction fuel as [| fuel IH]; intros a b n k x t v n' Hab Hrun.
  - discriminate.
  - simpl in Hrun. unfold bind at 1 in Hrun.
    destruct (loop_body_cases perf_counter function tolerance flag y
                run_time_limit start_time a b n)
      as [[Hc H] | [[Hc [Hl H]] | [Hc [Hl H]]]];
      rewrite H in Hrun.
    + injection Hrun as <- <- <- <- <-.
      exists O, a, b, n. unfold left, left_through.
      simpl. repeat split; try assumption; try reflexivity; try lia; lra.
    + injection Hrun as <- <- <- <- <-.
      exists O, a, b, n. unfold left, left_through.
      simpl. repeat split; try assumption; try reflexivity; try lia; lra.
    + destruct (midpoint_between a b Hab) as [Hlo Hhi].
      destruct (bracket_update_cases flag
                  (func_midpoint_of function y ((a + b) / 2)) a b
                  ((a + b) / 2)) as [E | E];
        rewrite E in Hrun, H; simpl in Hrun, H.
      * destruct (IH _ _ _ _ _ _ _ _ Hlo Hrun)
          as (j & a1 & b1 & n1 & Hj & Hbr & H1 & H2 & H3 & Hx & Hv & Hk).
        exists (S j), a1, b1, n1. simpl. rewrite H.
        repeat split; try assumption; try lia; lra.
      * destruct (IH _ _ _ _ _ _ _ _ Hhi Hrun)
          as (j & a1 & b1 & n1 & Hj & Hbr & H1 & H2 & H3 & Hx & Hv & Hk).
        exists (S j), a1, b1, n1. simpl. rewrite H.
        repeat split; try assumption; try lia; lra.
Qed.

End Returns.

Lemma find_root_traced_returns_inv
    (perf_counter : nat -> Q) (f : Q -> Q) (a b tolerance : Q)
    (is_increasing : bool) (y run_time_limit : Q) (fuel n : nat)
    (r : exit_kind * (Q * Q * Q)) (n' : nat) :
  find_root_traced perf_counter f a b tolerance is_increasing y
    run_time_limit fuel n = Returned (r, n') ->
  a < b /\ 0 < tolerance /\ ~ f a == f b /\
  while_loop perf_counter fuel f tolerance (loop_flag f a b y) y
    run_time_limit (perf_counter n) a b (S n) = Returned (r, n').
Proof.
  intros Hrun.
  destruct (Qlt_le_dec a b) as [Hab | Hba].
  2:{ rewrite find_root_traced_bad_interval in Hrun by lra. discriminate. }
  destruct (Qlt_le_dec 0 tolerance) as [Htol | Htol].
  2:{ rewrite find_root_traced_bad_tolerance in Hrun by (assumption || lra).
      discriminate. }
  destruct (Qeq_dec (f a) (f b)) as [Heq | Hne].
  1:{ rewrite find_root_traced_tie in Hrun by assumption. discriminate. }
  rewrite find_root_traced_checked in Hrun by assumption.
  auto.
Qed.

Lemma find_root_returns_inv
    (perf_counter : nat -> Q) (f : Q -> Q) (a b tolerance : Q)
    (is_increasing : bool) (y run_time_limit : Q) (fuel n : nat)
    (r : Q * Q * Q) (n' : nat) :
  find_root perf_counter f a b tolerance is_increasing y run_time_limit
    fuel n = Returned (r, n') ->
  exists k : exit_kind,
    find_root_traced perf_counter f a b tolerance is_increasing y
      run_time_limit fuel n = Returned ((k, r), n').
Proof.
  rewrite find_root_erases.
  destruct (find_root_traced perf_counter f a b tolerance is_increasing y
              run_time_limit fuel n) as [[[k r0] n0] | e |];
    try discriminate.
  simpl. intros H. injection H as -> ->. exists k. reflexivity.
Qed.

(** The wrapper, unfolded. *)
Lemma find_inverse_value_eq
    (perf_counter : nat -> Q) (f : Q -> Q) (y a b tolerance : Q)
    (is_increasing : bool) (fuel n : nat) :
  find_inverse_value perf_counter f y a b tolerance is_increasing fuel n =
  if Qle_bool a y && Qle_bool y b then
    match find_root perf_counter f a b tolerance is_increasing y 180 fuel
            (S n) with
    | Returned ((x, _, _), n') =>
        Returned ((x, perf_counter n' - perf_counter n), S n')
    | Raised e => Raised e
    | OutOfFuel => OutOfFuel
    end
  else Raised OutOfRangeError.
Proof.
  unfold find_inverse_value, bind at 1, time_perf_counter.
  unfold bind at 1, assert_.
  destruct (Qle_bool a y && Qle_bool y b); [| reflexivity].
  unfold ret at 1. unfold bind at 1.
  destruct (find_root perf_counter f a b tolerance is_increasing y 180 fuel
              (S n)) as [[[[x t] v] n'] | e |]; reflexivity.
Qed.

(** ** The two exits *)

(** C9.  Whatever [find_root] returns, it left through one of the two
    [return] statements; when that was the one of the time limit, the
    value returned is beyond the tolerance in absolute value, so that the
    third component is within the tolerance exactly when the call left
    through convergence. *)
Theorem find_root_exit_told_by_residual
    (perf_counter : nat -> Q) (f : Q -> Q) (a b tolerance : Q)
    (is_increasing : bool) (y run_time_limit : Q) (fuel n : nat)
    (x t v : Q) (n' : nat) :
  find_root perf_counter f a b tolerance is_increasing y run_time_limit
    fuel n = Returned ((x, t, v), n') ->
  exists k : exit_kind,
    find_root_traced perf_counter f a b tolerance is_increasing y
      run_time_limit fuel n = Returned ((k, (x, t, v)), n')
    /\ (k = TimedOut -> tolerance < Qabs v)
    /\ (Qabs v <= tolerance <-> k = Converged).
Proof.
  intros Hrun.
  destruct (find_root_returns_inv _ _ _ _ _ _ _ _ _ _ _ _ Hrun) as [k Hk].
  exists k. split; [exact Hk |].
  destruct (find_root_traced_returns_inv _ _ _ _ _ _ _ _ _ _ _ _ Hk)
    as (Hab & Htol & Hne & Hloop).
  destruct (while_loop_returns_inv _ _ _ _ _ _ _ _ _ _ _ _ _ _ _ _ Hab Hloop)
    as (j & a1 & b1 & n1 & _ & _ & _ & _ & _ & _ & _ & Hleft).
  destruct k; simpl in Hleft.
  - destruct Hleft as [Hc _]. split; [discriminate |].
    split; [reflexivity | intros _; exact Hc].
  - destruct Hleft as [Hc _]. split.
    + intros _. apply Qnot_le_lt. exact Hc.
    + split; [intros H; contradiction | discriminate].
Qed.

Lemma find_root_exit_told_by_residual_witness :
  exists k : exit_kind,
    find_root_traced ticking_clock function (-5) 5 (1 # 10) true 0 1
      20 O = Returned ((k, (10 # 4, 3, 8 # 64)), 4%nat)
    /\ (k = TimedOut -> (1 # 10) < Qabs (8 # 64))
    /\ (Qabs (8 # 64) <= (1 # 10) <-> k = Converged).
Proof.
  apply (find_root_exit_told_by_residual
           ticking_clock function (-5) 5 (1 # 10) true 0 1 20 O).
  vm_compute. reflexivity.
Defined.

(** ** The wrapper *)

Lemma find_root_raises_inv
    (perf_counter : nat -> Q) (f : Q -> Q) (a b tolerance : Q)
    (is_increasing : bool) (y run_time_limit : Q) (fuel n : nat) (e : exn) :
  find_root perf_counter f a b tolerance is_increasing y run_time_limit
    fuel n = Raised e ->
  e = InvalidIntervalError \/ e = InvalidToleranceError \/
  e = NonMonotonicError a b.
Proof.
  rewrite find_root_erases. intros Hrun.
  destruct (Qlt_le_dec a b) as [Hab | Hba].
  2:{ rewrite find_root_traced_bad_interval in Hrun by lra.
      injection Hrun as <-. auto. }
  destruct (Qlt_le_dec 0 tolerance) as [Htol | Htol].
  2:{ rewrite find_root_traced_bad_tolerance in Hrun by (assumption || lra).
      injection Hrun as <-. auto. }
  destruct (Qeq_dec (f a) (f b)) as [Heq | Hne].
  1:{ rewrite find_root_traced_tie in Hrun by assumption.
      injection Hrun as <-. auto. }
  exfalso. revert Hrun.
  rewrite find_root_traced_checked by assumption.
  pose proof (while_loop_never_raises perf_counter f tolerance
                (loop_flag f a b y) y run_time_limit (perf_counter n)
                fuel a b (S n)) as Hloop.
  destruct (while_loop perf_counter fuel f tolerance (loop_flag f a b y)
              y run_time_limit (perf_counter n) a b (S n))
    as [[r n'] | e' |]; try discriminate.
  exfalso. apply (Hloop e'). reflexivity.
Qed.

(** C5.  With [a <= y <= b], [find_inverse_value] is [find_root] on the
    same function, interval, tolerance, flag and [y], with a limit of 180
    seconds, three times the default of [find_root]: when that call
    returns [(x, t, v)], the wrapper returns [x] with its own elapsed
    time and drops [v]; an exception of that call is passed on. *)
Theorem find_inverse_value_delegates
    (perf_counter : nat -> Q) (f : Q -> Q) (y a b tolerance : Q)
    (is_increasing : bool) (fuel n : nat) :
  a <= y -> y <= b ->
  find_inverse_value perf_counter f y a b tolerance is_increasing fuel n =
  match find_root perf_counter f a b tolerance is_increasing y 180 fuel
          (S n) with
  | Returned ((x, _, _), n') =>
      Returned ((x, perf_counter n' - perf_counter n), S n')
  | Raised e => Raised e
  | OutOfFuel => OutOfFuel
  end
  /\ 180 = 3 * default_run_time_limit.
Proof.
  intros Hay Hyb. split; [| reflexivity].
  rewrite find_inverse_value_eq.
  destruct (Qle_bool_spec a y) as [_ | Hn]; [| contradiction].
  destruct (Qle_bool_spec y b) as [_ | Hn]; [| contradiction].
  reflexivity.
Qed.

Lemma find_inverse_value_delegates_witness :
  find_inverse_value ticking_clock function 3 0 5 (1 # 10) true 20 O =
  match find_root ticking_clock function 0 5 (1 # 10) true 3 180 20
          1%nat with
  | Returned ((x, _, _), n') =>
      Returned ((x, ticking_clock n' - ticking_clock O), S n')
  | Raised e => Raised e
  | OutOfFuel => OutOfFuel
  end
  /\ 180 = 3 * default_run_time_limit.
Proof.
  apply (find_inverse_value_delegates
           ticking_clock function 3 0 5 (1 # 10) true 20 O).
  - vm_compute. discriminate.
  - vm_compute. discriminate.
Defined.

(** C6.  [find_inverse_value] raises [OutOfRangeError] if and only if [y]
    is outside [[a, b]], that is [y < a] or [b < y]; the bounds compared
    with [y] are those of the domain. *)
Theorem find_inverse_value_out_of_range
    (perf_counter : nat -> Q) (f : Q -> Q) (y a b tolerance : Q)
    (is_increasing : bool) (fuel n : nat) :
  find_inverse_value perf_counter f y a b tolerance is_increasing fuel n =
  Raised OutOfRangeError
  <-> (y < a \/ b < y).
Proof.
  rewrite find_inverse_value_eq.
  destruct (Qle_bool_spec a y) as [Hay | Hay]; simpl.
  - destruct (Qle_bool_spec y b) as [Hyb | Hyb].
    + split; [| intros [H | H]; exfalso; lra].
      intros Hrun. exfalso.
      destruct (find_root perf_counter f a b tolerance is_increasing y 180
                  fuel (S n)) as [[[[x t] v] n'] | e |] eqn:Hroot;
        try discriminate.
      injection Hrun as ->.
      destruct (find_root_raises_inv _ _ _ _ _ _ _ _ _ _ _ Hroot)
        as [H | [H | H]]; discriminate.
    + split; [intros _ | reflexivity].
      right. apply Qnot_le_lt. exact Hyb.
  - split; [intros _ | reflexivity].
    left. apply Qnot_le_lt. exact Hay.
Qed.

(** ** Where the estimate lies *)

(** C10.  Every estimate [find_root] returns, through either exit, is
    strictly inside the interval it was given, and so is the estimate
    [find_inverse_value] returns. *)
Theorem estimate_strictly_inside
    (perf_counter : nat -> Q) (f : Q -> Q) (a b tolerance : Q)
    (is_increasing : bool) (y run_time_limit : Q) (fuel n : nat) :
  (forall (x t v : Q) (n' : nat),
     find_root perf_counter f a b tolerance is_increasing y run_time_limit
       fuel n = Returned ((x, t, v), n') ->
     a < x /\ x < b)
  /\ (forall (x t : Q) (n' : nat),
        find_inverse_value perf_counter f y a b tolerance is_increasing
          fuel n = Returned ((x, t), n') ->
        a < x /\ x < b).
Proof.
  assert (Hroot :
    forall (lim : Q) (m : nat) (x t v : Q) (n' : nat),
      find_root perf_counter f a b tolerance is_increasing y lim fuel m =
      Returned ((x, t, v), n') -> a < x /\ x < b).
  { intros lim m x t v n' Hrun.
    destruct (find_root_returns_inv _ _ _ _ _ _ _ _ _ _ _ _ Hrun) as [k Hk].
    destruct (find_root_traced_returns_inv _ _ _ _ _ _ _ _ _ _ _ _ Hk)
      as (Hab & _ & _ & Hloop).
    destruct (while_loop_returns_inv _ _ _ _ _ _ _ _ _ _ _ _ _ _ _ _
                Hab Hloop)
      as (j & a1 & b1 & n1 & _ & _ & Hlo & Hmid & Hhi & -> & _).
    destruct (midpoint_between a1 b1 Hmid) as [H1 H2].
    split; lra. }
  split.
  - intros x t v n'. apply Hroot.
  - intros x t n'. rewrite find_inverse_value_eq.
    destruct (Qle_bool a y && Qle_bool y b); [| discriminate].
    destruct (find_root perf_counter f a b tolerance is_increasing y 180
                fuel (S n)) as [[[[x0 t0] v0] n0] | e |] eqn:Hrun;
      try discriminate.
    intros H. injection H as <- _ _.
    exact (Hroot _ _ _ _ _ _ Hrun).
Qed.

Lemma estimate_strictly_inside_witness :
  (-5 < (240 # 128) /\ (240 # 128) < 5)
  /\ (0 < (440 # 128) /\ (440 # 128) < 5).
Proof.
  split.
  - apply (estimate_strictly_inside frozen_clock function (-5) 5 (1 # 10)
             true 0 60 20 O) with (t := 0) (v := -4096 # 2097152)
                                  (n' := 5%nat).
    vm_compute. reflexivity.
  - apply (estimate_strictly_inside ticking_clock function 0 5 (1 # 10)
             true 3 60 20 O) with (t := 6) (n' := 7%nat).
    vm_compute. reflexivity.
Defined.

(** ** What the estimate depends on *)

(** Two runs of the loop from the same bracket, on any two clocks and
    with any two limits, that both leave through convergence give the
    same estimate and the same value. *)
Lemma while_loop_converged_agree
    (clock1 clock2 : nat -> Q) (f : Q -> Q) (tolerance : Q) (flag : bool)
    (y lim1 lim2 start1 start2 : Q) (fuel1 : nat) :
  forall (fuel2 : nat) (a b : Q) (n1 n2 : nat)
         (x1 t1 v1 : Q) (m1 : nat) (x2 t2 v2 : Q) (m2 : nat),
    while_loop clock1 fuel1 f tolerance flag y lim1 start1 a b n1 =
      Returned ((Converged, (x1, t1, v1)), m1) ->
    while_loop clock2 fuel2 f tolerance flag y lim2 start2 a b n2 =
      Returned ((Converged, (x2, t2, v2)), m2) ->
    x1 = x2 /\ v1 = v2.
Proof.
  induction fuel1 as [| fuel1 IH];
    intros fuel2 a b n1 n2 x1 t1 v1 m1 x2 t2 v2 m2 H1 H2.
  - discriminate.
  - destruct fuel2 as [| fuel2]; [discriminate |].
    simpl in H1, H2. unfold bind at 1 in H1. unfold bind at 1 in H2.
    destruct (loop_body_cases clock1 f tolerance flag y lim1 start1 a b n1)
      as [[Hc1 E1] | [[Hc1 [_ E1]] | [Hc1 [_ E1]]]]; rewrite E1 in H1;
    destruct (loop_body_cases clock2 f tolerance flag y lim2 start2 a b n2)
      as [[Hc2 E2] | [[Hc2 [_ E2]] | [Hc2 [_ E2]]]]; rewrite E2 in H2;
    try contradiction; try discriminate.
    + injection H1 as <- _ <- _. injection H2 as <- _ <- _.
      split; reflexivity.
    + exact (IH _ _ _ _ _ _ _ _ _ _ _ _ _ H1 H2).
Qed.

(** C7, as the code has it.  The flag the caller supplies has no effect
    on what [find_root] does.  Two calls on the same function, interval,
    tolerance and [y] that both leave through convergence return the same
    estimate and the same residual, whatever the clocks, the limits and
    the flags; a call that leaves through the time limit depends on the
    clock and on the limit besides. *)
Theorem find_root_estimate_determined
    (clock1 clock2 : nat -> Q) (f : Q -> Q) (a b tolerance y : Q)
    (lim1 lim2 : Q) (flag1 flag2 : bool) (fuel1 fuel2 n1 n2 : nat) :
  find_root clock1 f a b tolerance flag1 y lim1 fuel1 n1 =
  find_root clock1 f a b tolerance flag2 y lim1 fuel1 n1
  /\ forall (x1 t1 v1 : Q) (m1 : nat) (x2 t2 v2 : Q) (m2 : nat),
       find_root_traced clock1 f a b tolerance flag1 y lim1 fuel1 n1 =
         Returned ((Converged, (x1, t1, v1)), m1) ->
       find_root_traced clock2 f a b tolerance flag2 y lim2 fuel2 n2 =
         Returned ((Converged, (x2, t2, v2)), m2) ->
       x1 = x2 /\ v1 = v2.
Proof.
  split; [reflexivity |].
  intros x1 t1 v1 m1 x2 t2 v2 m2 H1 H2.
  destruct (find_root_traced_returns_inv _ _ _ _ _ _ _ _ _ _ _ _ H1)
    as (_ & _ & _ & L1).
  destruct (find_root_traced_returns_inv _ _ _ _ _ _ _ _ _ _ _ _ H2)
    as (_ & _ & _ & L2).
  exact (while_loop_converged_agree _ _ _ _ _ _ _ _ _ _ _ _ _ _ _ _
           _ _ _ _ _ _ _ _ L1 L2).
Qed.

Lemma find_root_estimate_determined_witness :
  (240 # 128) = (240 # 128) /\ (-4096 # 2097152) = (-4096 # 2097152).
Proof.
  apply (find_root_estimate_determined
           frozen_clock ticking_clock function (-5) 5 (1 # 10) 0 60 30
           true false 20 25 O 7)
    with (t1 := 0) (m1 := 5%nat) (t2 := 4) (m2 := 12%nat).
  - vm_compute. reflexivity.
  - vm_compute. reflexivity.
Defined.

(** C7, as stated, fails.  The same function, interval, tolerance, [y]
    and flag.  With the same limit of 60 seconds: on a clock that stands
    still the call converges to [240/128]; on a clock that advances 100
    seconds between readings it leaves through the time limit with the
    first midpoint, [0].  And on one and the same clock, a limit of 0
    seconds gives the first midpoint where a limit of 60 seconds gives
    [240/128]. *)
Lemma find_root_estimate_depends_on_clock :
  find_root frozen_clock function (-5) 5 (1 # 10) true 0 60 20 O =
    Returned ((240 # 128, 0, -4096 # 2097152), 5%nat)
  /\ find_root slow_clock function (-5) 5 (1 # 10) true 0 60 20 O =
       Returned ((0 # 2, 200, -64 # 8), 3%nat)
  /\ find_root ticking_clock function (-5) 5 (1 # 10) true 0 60 20 O =
       Returned ((240 # 128, 4, -4096 # 2097152), 5%nat)
  /\ find_root ticking_clock function (-5) 5 (1 # 10) true 0 0 20 O =
       Returned ((0 # 2, 2, -64 # 8), 3%nat)
  /\ ~ (240 # 128) == (0 # 2)
  /\ ~ (-4096 # 2097152) == (-64 # 8).
Proof.
  repeat split; try (vm_compute; reflexivity); vm_compute; discriminate.
Qed.

(** ** Convergence *)

Lemma lt_pow2 (k : nat) : inject_Z (Z.of_nat k) < 2 ^ Z.of_nat k.
Proof.
  induction k as [| k IH].
  - reflexivity.
  - rewrite pow2_succ, Nat2Z.inj_succ. unfold Z.succ.
    rewrite inject_Z_plus.
    pose proof (pow2_pos k) as Hp.
    assert (H1 : 1 <= 2 ^ Z.of_nat k).
    { destruct k as [| k'].
      - discriminate.
      - assert (H0 : 0 <= inject_Z (Z.of_nat (S k'))).
        { change 0 with (inject_Z 0). rewrite <- Zle_Qle. lia. }
        assert (H2 : inject_Z (Z.of_nat (S k')) == inject_Z (Z.of_nat k') + 1).
        { rewrite Nat2Z.inj_succ. unfold Z.succ.
          rewrite inject_Z_plus. reflexivity. }
        assert (H3 : 0 <= inject_Z (Z.of_nat k')).
        { change 0 with (inject_Z 0). rewrite <- Zle_Qle. lia. }
        lra. }
    change (inject_Z 1) with 1. lra.
Qed.

(** Powers of two outgrow every rational. *)
Lemma pow2_unbounded (q : Q) : exists k : nat, q < 2 ^ Z.of_nat k.
Proof.
  exists (Z.to_nat (Qceiling q)).
  apply Qle_lt_trans with (inject_Z (Z.of_nat (Z.to_nat (Qceiling q)))).
  - apply Qle_trans with (inject_Z (Qceiling q)).
    + apply Qle_ceiling.
    + rewrite <- Zle_Qle. lia.
  - apply lt_pow2.
Qed.

Section Convergence.

Variable perf_counter : nat -> Q.
Variable f : Q -> Q.
Variables (tolerance : Q) (flag : bool).
Variables (y run_time_limit start_time : Q).
Variables (a0 b0 r delta : Q).

Let g := func_midpoint_of f y.

(** The flag tells the direction of the function the loop tests. *)
Hypothesis flag_right :
  if flag then strictly_increasing_on g a0 b0
  else strictly_decreasing_on g a0 b0.
Hypothesis root : g r == 0.
Hypothesis near_root :
  forall x : Q, a0 <= x -> x <= b0 ->
    Qabs (x - r) < delta -> Qabs (g x) <= tolerance.
Hypothesis in_time :
  forall m : nat, ~ run_time_limit < perf_counter m - start_time.

(** The update never loses the root. *)
Lemma bracket_update_keeps_root (a b : Q) :
  a0 <= a -> b <= b0 -> a <= r -> r <= b -> a < b ->
  let c := (a + b) / 2 in
  fst (bracket_update flag (g c) a b c) <= r /\
  r <= snd (bracket_update flag (g c) a b c).
Proof.
  intros Ha Hb Hlo Hhi Hab c.
  destruct (midpoint_between a b Hab) as [Hac Hcb]. fold c in Hac, Hcb.
  unfold bracket_update.
  destruct flag; destruct (Qgt_bool_spec (g c) 0) as [Hpos | Hneg];
    simpl; split; try assumption.
  - destruct (Qlt_le_dec c r) as [Hcr | Hrc]; [| exact Hrc].
    assert (H : g c < g r) by (apply flag_right; lra). lra.
  - destruct (Qlt_le_dec r c) as [Hrc | Hcr]; [| exact Hcr].
    assert (H : g r < g c) by (apply flag_right; lra). lra.
  - destruct (Qlt_le_dec r c) as [Hrc | Hcr]; [| exact Hcr].
    assert (H : g c < g r) by (apply flag_right; lra). lra.
  - destruct (Qlt_le_dec c r) as [Hcr | Hrc]; [| exact Hrc].
    assert (H : g r < g c) by (apply flag_right; lra). lra.
Qed.

(** A bracket of the root narrower than [2 * delta] has its midpoint
    within the tolerance. *)
Lemma narrow_bracket_converged (a b : Q) :
  a0 <= a -> b <= b0 -> a <= r -> r <= b -> a < b ->
  b - a < delta * 2 ->
  Qabs (g ((a + b) / 2)) <= tolerance.
Proof.
  intros Ha Hb Hlo Hhi Hab Hw.
  destruct (midpoint_between a b Hab) as [Hac Hcb].
  pose proof (midpoint_eq a b) as Hc.
  apply near_root; try lra.
  apply Qabs_Qlt_condition. split; lra.
Qed.

(** A bracket of the root narrower than [delta * 2^(j+1)] is left
    through convergence after at most [j] further passes. *)
Lemma converges_within (j : nat) :
  forall (a b : Q) (n : nat),
    a0 <= a -> b <= b0 -> a <= r -> r <= b -> a < b ->
    b - a < delta * 2 ^ Z.of_nat (S j) ->
    exists (i : nat) (a1 b1 : Q) (n1 : nat),
      (i <= j)%nat /\
      brackets perf_counter i f tolerance flag y run_time_limit start_time
        a b n = Some (a1, b1, n1) /\
      a <= a1 /\ a1 < b1 /\ b1 <= b /\
      Qabs (g ((a1 + b1) / 2)) <= tolerance.
Proof.
  induction j as [| j IH]; intros a b n Ha Hb Hlo Hhi Hab Hw.
  - exists O, a, b, n. simpl.
    repeat split; try assumption; try lia; try lra.
    apply narrow_bracket_converged; assumption.
  - destruct (Qle_bool_spec (Qabs (g ((a + b) / 2))) tolerance)
      as [Hc | Hc].
    + exists O, a, b, n. simpl.
      repeat split; try assumption; try lia; lra.
    + pose proof (loop_body_again perf_counter f tolerance flag y
                    run_time_limit start_time a b n Hc (in_time n))
        as Hbody.
      destruct (bracket_update_keeps_root a b Ha Hb Hlo Hhi Hab)
        as [Hlo' Hhi'].
      fold g in Hbody.
      destruct (midpoint_between a b Hab) as [Hac Hcb].
      pose proof (midpoint_eq a b) as Hmid.
      rewrite pow2_succ in Hw.
      destruct (bracket_update_cases flag (g ((a + b) / 2)) a b
                  ((a + b) / 2)) as [E | E];
        rewrite E in Hbody, Hlo', Hhi'; simpl in Hbody, Hlo', Hhi'.
      * destruct (IH a ((a + b) / 2) (S n))
          as (i & a1 & b1 & n1 & Hi & Hbr & H1 & H2 & H3 & H4);
          try assumption; try lra.
        exists (S i), a1, b1, n1. simpl. rewrite Hbody.
        repeat split; try assumption; try lia; lra.
      * destruct (IH ((a + b) / 2) b (S n))
          as (i & a1 & b1 & n1 & Hi & Hbr & H1 & H2 & H3 & H4);
          try assumption; try lra.
        exists (S i), a1, b1, n1. simpl. rewrite Hbody.
        repeat split; try assumption; try lia; lra.
Qed.

End Convergence.

(** The flag computed from the endpoints is the direction of the
    function the loop tests. *)
Lemma loop_flag_right (f : Q -> Q) (a b y : Q) :
  strictly_monotonic_on f a b -> a < b ->
  ~ f a == f b /\
  if loop_flag f a b y
  then strictly_increasing_on (func_midpoint_of f y) a b
  else strictly_decreasing_on (func_midpoint_of f y) a b.
Proof.
  intros [Hinc | Hdec] Hab.
  - assert (Hends : f a < f b) by (apply Hinc; lra).
    split; [lra |].
    unfold loop_flag, Qne_bool, func_midpoint_of.
    destruct (Qlt_bool_spec (f a) (f b)) as [_ | Hn]; [| contradiction].
    destruct (Qeq_bool y 0); simpl.
    + exact Hinc.
    + intros x z Hx Hxz Hz. pose proof (Hinc x z Hx Hxz Hz). lra.
  - assert (Hends : f b < f a) by (apply Hdec; lra).
    split; [lra |].
    unfold loop_flag, Qne_bool, func_midpoint_of.
    destruct (Qlt_bool_spec (f a) (f b)) as [Hn | _]; [exfalso; lra |].
    destruct (Qeq_bool y 0); simpl.
    + exact Hdec.
    + intros x z Hx Hxz Hz. pose proof (Hdec x z Hx Hxz Hz). lra.
Qed.

(** Continuity of [f] at the root bounds the tested function near it. *)
Lemma near_root_of_continuity (f : Q -> Q) (y a b r tolerance : Q) :
  continuous_at f a b r -> func_midpoint_of f y r == 0 -> 0 < tolerance ->
  exists delta : Q, 0 < delta /\
    forall x : Q, a <= x -> x <= b ->
      Qabs (x - r) < delta -> Qabs (func_midpoint_of f y x) <= tolerance.
Proof.
  intros Hcont Hroot Htol.
  destruct (Hcont tolerance Htol) as (delta & Hdelta & Hnear).
  exists delta. split; [exact Hdelta |].
  intros x Hax Hxb Hx. specialize (Hnear x Hax Hxb Hx).
  apply Qabs_Qle_condition in Hnear.
  apply Qabs_Qle_condition.
  unfold func_midpoint_of in *.
  destruct (Qeq_bool y 0); split; lra.
Qed.

(** X15.  Over exact arithmetic.  Let [f] be strictly monotonic on
    [[a, b]], [a < b], the tolerance positive, [r] in [[a, b]] a root of
    the function the loop tests ([f] when [y] is zero, [y - f]
    otherwise), [f] continuous at [r], and the clock never past the
    limit.  Then [find_root] returns, with any fuel beyond some bound, an
    estimate [x] strictly between [a] and [b] at which the tested
    function is within the tolerance: [|f x| <= tolerance] when [y] is
    zero and [|y - f x| <= tolerance] otherwise. *)
Theorem find_root_converges
    (perf_counter : nat -> Q) (f : Q -> Q) (a b tolerance : Q)
    (is_increasing : bool) (y run_time_limit : Q) (n0 : nat) (r : Q) :
  strictly_monotonic_on f a b -> a < b -> 0 < tolerance ->
  brackets_root f y a b r -> continuous_at f a b r ->
  never_late perf_counter n0 run_time_limit ->
  exists (k : nat) (x t v : Q) (n' : nat),
    (forall fuel : nat, (k < fuel)%nat ->
       find_root perf_counter f a b tolerance is_increasing y run_time_limit
         fuel n0 = Returned ((x, t, v), n'))
    /\ v = func_midpoint_of f y x
    /\ Qabs v <= tolerance
    /\ (y == 0 -> Qabs (f x) <= tolerance)
    /\ (~ y == 0 -> Qabs (y - f x) <= tolerance)
    /\ a < x /\ x < b.
Proof.
  intros Hmono Hab Htol (Hlo & Hhi & Hroot) Hcont Hclock.
  destruct (loop_flag_right f a b y Hmono Hab) as [Hne Hflag].
  destruct (near_root_of_continuity f y a b r tolerance Hcont Hroot Htol)
    as (delta & Hdelta & Hnear).
  destruct (pow2_unbounded ((b - a) / delta)) as [j Hj].
  assert (Hw : b - a < delta * 2 ^ Z.of_nat (S j)).
  { rewrite pow2_succ. pose proof (pow2_pos j) as Hp.
    assert (H1 : b - a == (b - a) / delta * delta) by (field; lra).
    assert (H2 : (b - a) / delta * delta < 2 ^ Z.of_nat j * delta)
      by (apply Qmult_lt_r; assumption).
    assert (H3 : 0 < delta * 2 ^ Z.of_nat j)
      by (apply Qmult_lt_0_compat; assumption).
    lra. }
  assert (Hin : forall m : nat,
            ~ run_time_limit < perf_counter m - perf_counter n0).
  { intros m. apply Qle_not_lt. apply Hclock. }
  destruct (converges_within perf_counter f tolerance (loop_flag f a b y) y
              run_time_limit (perf_counter n0) a b r delta
              Hflag Hroot Hnear Hin j a b (S n0))
    as (i & a1 & b1 & n1 & Hi & Hbr & H1 & H2 & H3 & Hconv);
    try assumption; try lra.
  destruct (midpoint_between a1 b1 H2) as [Hm1 Hm2].
  exists i, ((a1 + b1) / 2), (perf_counter n1 - perf_counter n0),
    (func_midpoint_of f y ((a1 + b1) / 2)), (S n1).
  split; [| split; [reflexivity | split; [exact Hconv |]]].
  - intros fuel Hfuel.
    rewrite find_root_erases, find_root_traced_checked by assumption.
    replace fuel with (i + S (fuel - S i))%nat by lia.
    rewrite (while_loop_brackets _ _ _ _ _ _ _ _ _ _ _ _ _ _ _ Hbr).
    simpl. unfold bind at 1.
    rewrite loop_body_converged by exact Hconv. reflexivity.
  - unfold func_midpoint_of in Hconv.
    split; [| split; [| split; lra]].
    + intros Hy. apply Qeq_bool_iff in Hy. rewrite Hy in Hconv. exact Hconv.
    + intros Hy. destruct (Qeq_bool_spec y 0) as [H | _];
        [contradiction | exact Hconv].
Qed.

Lemma identity_continuous (a b r : Q) : continuous_at identity a b r.
Proof.
  intros eps Heps. exists eps. split; [exact Heps |].
  intros x _ _ Hx. unfold identity. apply Qlt_le_weak. exact Hx.
Qed.

Lemma identity_increasing (a b : Q) : strictly_monotonic_on identity a b.
Proof.
  left. intros x z _ Hxz _. exact Hxz.
Qed.

Lemma find_root_converges_witness :
  exists (k : nat) (x t v : Q) (n' : nat),
    (forall fuel : nat, (k < fuel)%nat ->
       find_root frozen_clock identity 0 5 (1 # 10) true 3 60 fuel O =
       Returned ((x, t, v), n'))
    /\ v = func_midpoint_of identity 3 x
    /\ Qabs v <= 1 # 10
    /\ (3 == 0 -> Qabs (identity x) <= 1 # 10)
    /\ (~ 3 == 0 -> Qabs (3 - identity x) <= 1 # 10)
    /\ 0 < x /\ x < 5.
Proof.
  apply (find_root_converges frozen_clock identity 0 5 (1 # 10) true 3 60
           O 3).
  - apply identity_increasing.
  - vm_compute. reflexivity.
  - vm_compute. reflexivity.
  - repeat split; vm_compute; discriminate.
  - apply identity_continuous.
  - intros m. vm_compute. discriminate.
Defined.

(** * Further properties of the code *)

(** ** The monotonicity check *)

(** X1.  [check_strict_monotonicity] looks at the function at the two
    endpoints only: two functions with equal values there get the same
    verdict, whatever they do in between.  A function that is not
    monotonic is thus reported as increasing when its value at [b] is
    the larger one. *)
Theorem check_strict_monotonicity_endpoints_only
    (f g : Q -> Q) (a b : Q) (n : nat) :
  f a == g a -> f b == g b ->
  check_strict_monotonicity f a b n = check_strict_monotonicity g a b n.
Proof.
  intros Ha Hb. unfold check_strict_monotonicity.
  destruct (Qgt_bool_spec (f a) (f b)) as [Hf | Hf];
    destruct (Qgt_bool_spec (g a) (g b)) as [Hg | Hg];
    try reflexivity; try (exfalso; lra).
  destruct (Qlt_bool_spec (f a) (f b)) as [Hf' | Hf'];
    destruct (Qlt_bool_spec (g a) (g b)) as [Hg' | Hg'];
    try reflexivity; exfalso; lra.
Qed.

Lemma check_strict_monotonicity_endpoints_only_witness :
  check_strict_monotonicity square (-1) 2 O =
  check_strict_monotonicity (fun x => x + 2) (-1) 2 O.
Proof.
  apply (check_strict_monotonicity_endpoints_only
           square (fun x => x + 2) (-1) 2 O).
  - vm_compute. reflexivity.
  - vm_compute. reflexivity.
Defined.

(** X2.  On an interval with [a < b] the check is right about every
    strictly monotonic function: it returns [True] for a strictly
    increasing one and [False] for a strictly decreasing one, it raises
    nothing, and it does not read the clock. *)
Theorem check_strict_monotonicity_sound
    (f : Q -> Q) (a b : Q) (n : nat) :
  a < b ->
  (strictly_increasing_on f a b ->
   check_strict_monotonicity f a b n = Returned (true, n))
  /\ (strictly_decreasing_on f a b ->
      check_strict_monotonicity f a b n = Returned (false, n)).
Proof.
  intros Hab. split; intros Hmono.
  - assert (Hends : f a < f b) by (apply Hmono; lra).
    rewrite check_strict_monotonicity_ok by lra.
    destruct (Qlt_bool_spec (f a) (f b)); [reflexivity | contradiction].
  - assert (Hends : f b < f a) by (apply Hmono; lra).
    rewrite check_strict_monotonicity_ok by lra.
    destruct (Qlt_bool_spec (f a) (f b)); [exfalso; lra | reflexivity].
Qed.

Lemma check_strict_monotonicity_sound_witness :
  check_strict_monotonicity identity 0 1 O = Returned (true, O).
Proof.
  apply (check_strict_monotonicity_sound identity 0 1 O).
  - vm_compute. reflexivity.
  - intros x z _ Hxz _. exact Hxz.
Defined.

(** X3.  The check does not ask for [a < b].  With the endpoints
    exchanged the verdict is the opposite one, and a tie stays a tie
    (the interval in the message is the one that was passed). *)
Theorem check_strict_monotonicity_swap
    (f : Q -> Q) (a b : Q) (n : nat) :
  (forall (v : bool) (n' : nat),
     check_strict_monotonicity f a b n = Returned (v, n') ->
     check_strict_monotonicity f b a n = Returned (negb v, n'))
  /\ (check_strict_monotonicity f a b n = Raised (ValueError a b) <->
      check_strict_monotonicity f b a n = Raised (ValueError b a)).
Proof.
  unfold check_strict_monotonicity, Qgt_bool.
  destruct (Qlt_bool_spec (f b) (f a)) as [H1 | H1];
    destruct (Qlt_bool_spec (f a) (f b)) as [H2 | H2];
    try (exfalso; lra); unfold ret, raise.
  - split; [| split; discriminate].
    intros v n' H. injection H as <- <-. reflexivity.
  - split; [| split; discriminate].
    intros v n' H. injection H as <- <-. reflexivity.
  - split; [discriminate | split; reflexivity].
Qed.

Lemma check_strict_monotonicity_swap_witness :
  check_strict_monotonicity identity 1 0 O = Returned (negb true, O).
Proof.
  apply (check_strict_monotonicity_swap identity 0 1 O).
  vm_compute. reflexivity.
Defined.

(** ** A target other than zero *)

(** The loop sees the function and [y] only through the value it tests. *)
Lemma while_loop_same_values
    (perf_counter : nat -> Q) (f g : Q -> Q) (tolerance : Q) (flag : bool)
    (y y' run_time_limit start_time : Q) (fuel : nat) :
  (forall c : Q, func_midpoint_of f y c = func_midpoint_of g y' c) ->
  forall (a b : Q) (n : nat),
    while_loop perf_counter fuel f tolerance flag y run_time_limit
      start_time a b n =
    while_loop perf_counter fuel g tolerance flag y' run_time_limit
      start_time a b n.
Proof.
  intros Hsame.
  induction fuel as [| fuel IH]; intros a b n; [reflexivity |].
  simpl. unfold bind.
  assert (Hbody :
    loop_body perf_counter f tolerance flag y run_time_limit start_time
      a b n =
    loop_body perf_counter g tolerance flag y' run_time_limit start_time
      a b n).
  { unfold loop_body. rewrite (Hsame ((a + b) / 2)). reflexivity. }
  rewrite Hbody.
  destruct (loop_body perf_counter g tolerance flag y' run_time_limit
              start_time a b n) as [[[k r | a' b'] n'] | e |];
    try reflexivity.
  apply IH.
Qed.

(** X4.  Over exact arithmetic, looking for the inverse value at
    [y <> 0] is looking for a root of [y - f]: [find_root] on [f] with
    target [y] does exactly what it does on the function
    [x |-> y - f x] with target zero, on every clock, with the same
    result, the same exception or the same exhaustion of the fuel.  The
    inversion of the flag is what makes the two agree.  (With rounding
    the two endpoint checks can differ: [y - f a] and [y - f b] may
    round to the same number where [f a] and [f b] are distinct.) *)
Theorem find_root_target_is_root_of_difference
    (perf_counter : nat -> Q) (f : Q -> Q) (a b tolerance : Q)
    (is_increasing : bool) (y run_time_limit : Q) (fuel n : nat) :
  ~ y == 0 ->
  find_root perf_counter f a b tolerance is_increasing y run_time_limit
    fuel n =
  find_root perf_counter (fun x => y - f x) a b tolerance is_increasing 0
    run_time_limit fuel n.
Proof.
  intros Hy. rewrite !find_root_erases.
  destruct (Qlt_le_dec a b) as [Hab | Hba].
  2:{ rewrite !find_root_traced_bad_interval by lra. reflexivity. }
  destruct (Qlt_le_dec 0 tolerance) as [Htol | Htol].
  2:{ rewrite !find_root_traced_bad_tolerance by (assumption || lra).
      reflexivity. }
  destruct (Qeq_dec (f a) (f b)) as [Heq | Hne].
  1:{ rewrite find_root_traced_tie by assumption.
      rewrite (find_root_traced_tie perf_counter (fun x => y - f x))
        by (assumption || lra).
      reflexivity. }
  rewrite find_root_traced_checked by assumption.
  rewrite (find_root_traced_checked perf_counter (fun x => y - f x))
    by (assumption || lra).
  assert (Hflag :
    loop_flag f a b y = loop_flag (fun x => y - f x) a b 0).
  { unfold loop_flag.
    destruct (Qne_bool_spec y 0) as [_ | Hn]; [| contradiction].
    change (Qne_bool 0 0) with false. cbv iota.
    destruct (Qlt_bool_spec (f a) (f b)) as [H1 | H1];
      destruct (Qlt_bool_spec (y - f a) (y - f b)) as [H2 | H2];
      try reflexivity; exfalso; lra. }
  rewrite Hflag.
  rewrite (while_loop_same_values perf_counter f (fun x => y - f x)
             tolerance (loop_flag (fun x => y - f x) a b 0) y 0
             run_time_limit (perf_counter n) fuel).
  - reflexivity.
  - intros c. unfold func_midpoint_of.
    destruct (Qeq_bool_spec y 0) as [H | _]; [contradiction |].
    reflexivity.
Qed.

Lemma find_root_target_is_root_of_difference_witness :
  find_root ticking_clock function 0 5 (1 # 10) true 3 180 20 O =
  find_root ticking_clock (fun x => 3 - function x) 0 5 (1 # 10) true 0
    180 20 O.
Proof.
  apply (find_root_target_is_root_of_difference
           ticking_clock function 0 5 (1 # 10) true 3 180 20 O).
  vm_compute. discriminate.
Defined.

(** ** Invariants of the bracket *)

(** Whatever the update preserves holds of every bracket the loop goes
    through. *)
Lemma brackets_invariant
    (perf_counter : nat -> Q) (f : Q -> Q) (tolerance : Q) (flag : bool)
    (y run_time_limit start_time : Q) (P : Q -> Q -> Prop) :
  (forall a b : Q,
     P a b ->
     let c := (a + b) / 2 in
     let ab := bracket_update flag (func_midpoint_of f y c) a b c in
     P (fst ab) (snd ab)) ->
  forall (k : nat) (a0 b0 : Q) (n0 : nat) (a b : Q) (n : nat),
    P a0 b0 ->
    brackets perf_counter k f tolerance flag y run_time_limit start_time
      a0 b0 n0 = Some (a, b, n) ->
    P a b /\ n = (n0 + k)%nat.
Proof.
  intros Hstep.
  induction k as [| k IH]; intros a0 b0 n0 a b n HP Hk; simpl in Hk.
  - injection Hk as <- <- <-. split; [exact HP | lia].
  - destruct (loop_body perf_counter f tolerance flag y run_time_limit
                start_time a0 b0 n0)
      as [[[ek r | a1 b1] n1] | e |] eqn:Hbody; try discriminate.
    apply loop_body_again_inv in Hbody.
    destruct Hbody as (_ & -> & _ & _ & Hab).
    specialize (Hstep a0 b0 HP). simpl in Hstep.
    rewrite <- Hab in Hstep. simpl in Hstep.
    destruct (IH a1 b1 (S n0) a b n Hstep Hk) as [HP' ->].
    split; [exact HP' | lia].
Qed.

(** The brackets are nested, and each pass reads the clock once. *)
Lemma brackets_nested
    (perf_counter : nat -> Q) (f : Q -> Q) (tolerance : Q) (flag : bool)
    (y run_time_limit start_time : Q)
    (k : nat) (a0 b0 : Q) (n0 : nat) (a b : Q) (n : nat) :
  a0 < b0 ->
  brackets perf_counter k f tolerance flag y run_time_limit start_time
    a0 b0 n0 = Some (a, b, n) ->
  (a0 <= a /\ a < b /\ b <= b0) /\ n = (n0 + k)%nat.
Proof.
  intros Hab Hk.
  apply (brackets_invariant perf_counter f tolerance flag y run_time_limit
           start_time (fun a b => a0 <= a /\ a < b /\ b <= b0))
    with (k := k) (a0 := a0) (b0 := b0) (n0 := n0); try assumption.
  - intros a' b' (H1 & H2 & H3) c ab.
    destruct (midpoint_between a' b' H2) as [Hlo Hhi]. fold c in Hlo, Hhi.
    unfold ab.
    destruct (bracket_update_cases flag (func_midpoint_of f y c) a' b' c)
      as [E | E]; rewrite E; simpl; repeat split; lra.
  - repeat split; lra.
Qed.

Lemma bracket_update_keeps_signs (flag : bool) (g : Q -> Q) (a b : Q) :
  sign_bracket flag g a b ->
  let c := (a + b) / 2 in
  sign_bracket flag g (fst (bracket_update flag (g c) a b c))
                      (snd (bracket_update flag (g c) a b c)).
Proof.
  intros Hs c. unfold bracket_update, sign_bracket in *.
  destruct flag; destruct (Qgt_bool_spec (g c) 0) as [Hp | Hp];
    simpl; destruct Hs as [H1 H2]; split; lra.
Qed.

(** The flag computed from the endpoints agrees with the signs there. *)
Lemma loop_flag_signs (f : Q -> Q) (a b y : Q) :
  ~ f a == f b -> sign_change (func_midpoint_of f y) a b ->
  sign_bracket (loop_flag f a b y) (func_midpoint_of f y) a b.
Proof.
  intros Hne Hs.
  unfold sign_change, sign_bracket, loop_flag, Qne_bool, func_midpoint_of
    in *.
  destruct (Qeq_bool y 0); simpl;
    destruct (Qlt_bool_spec (f a) (f b)) as [Hlt | Hlt]; simpl;
    destruct Hs as [[H1 H2] | [H1 H2]]; split; try lra;
    exfalso; apply Hne; lra.
Qed.

Lemma lipschitz_func_midpoint (f : Q -> Q) (y L a b : Q) :
  lipschitz_on f L a b -> lipschitz_on (func_midpoint_of f y) L a b.
Proof.
  intros HL x z Hx1 Hx2 Hz1 Hz2. specialize (HL x z Hx1 Hx2 Hz1 Hz2).
  unfold func_midpoint_of. destruct (Qeq_bool y 0); [exact HL |].
  setoid_replace (y - f x - (y - f z)) with (- (f x - f z)) by ring.
  rewrite Qabs_opp. exact HL.
Qed.

(** Between ends of opposite signs a Lipschitz function is small at the
    midpoint. *)
Lemma midpoint_value_bound
    (flag : bool) (g : Q -> Q) (L a0 b0 a b : Q) :
  lipschitz_on g L a0 b0 -> a0 <= a -> a < b -> b <= b0 ->
  sign_bracket flag g a b ->
  Qabs (g ((a + b) / 2)) <= L * (b - a) * (1 # 2).
Proof.
  intros HL Ha Hab Hb Hs.
  destruct (midpoint_between a b Hab) as [Hlo Hhi].
  pose proof (midpoint_eq a b) as Hc.
  set (c := (a + b) / 2) in *.
  pose proof (HL c a) as H1. pose proof (HL c b) as H2.
  rewrite (Qabs_pos (c - a)) in H1 by lra.
  rewrite (Qabs_neg (c - b)) in H2 by lra.
  assert (E1 : L * (c - a) == L * (b - a) * (1 # 2))
    by (rewrite Hc; ring).
  assert (E2 : L * - (c - b) == L * (b - a) * (1 # 2))
    by (rewrite Hc; ring).
  rewrite E1 in H1. rewrite E2 in H2.
  assert (H1' : Qabs (g c - g a) <= L * (b - a) * (1 # 2))
    by (apply H1; lra).
  assert (H2' : Qabs (g c - g b) <= L * (b - a) * (1 # 2))
    by (apply H2; lra).
  apply Qabs_Qle_condition in H1'. apply Qabs_Qle_condition in H2'.
  apply Qabs_Qle_condition.
  unfold sign_bracket in Hs. destruct flag; destruct Hs; split; lra.
Qed.

(** A bracket whose midpoint is within the tolerance ends the call. *)
Lemma find_root_of_converged_bracket
    (perf_counter : nat -> Q) (f : Q -> Q) (a b tolerance : Q)
    (is_increasing : bool) (y run_time_limit : Q) (n0 : nat)
    (i : nat) (a1 b1 : Q) (n1 : nat) :
  a < b -> 0 < tolerance -> ~ f a == f b ->
  brackets perf_counter i f tolerance (loop_flag f a b y) y run_time_limit
    (perf_counter n0) a b (S n0) = Some (a1, b1, n1) ->
  Qabs (func_midpoint_of f y ((a1 + b1) / 2)) <= tolerance ->
  forall fuel : nat, (i < fuel)%nat ->
    find_root perf_counter f a b tolerance is_increasing y run_time_limit
      fuel n0 =
    Returned (((a1 + b1) / 2, perf_counter n1 - perf_counter n0,
               func_midpoint_of f y ((a1 + b1) / 2)), S n1).
Proof.
  intros Hab Htol Hne Hbr Hconv fuel Hfuel.
  rewrite find_root_erases, find_root_traced_checked by assumption.
  replace fuel with (i + S (fuel - S i))%nat by lia.
  rewrite (while_loop_brackets _ _ _ _ _ _ _ _ _ _ _ _ _ _ _ Hbr).
  simpl. unfold bind at 1.
  rewrite loop_body_converged by exact Hconv. reflexivity.
Qed.

(** X5.  Let the checks be passed and the tested function ([f], or
    [y - f] for [y <> 0]) have values of opposite signs at [a] and [b].
    Then its values at the two ends of every bracket the loop goes
    through have opposite signs as well, in the orientation of the flag
    the loop runs with; and each pass reads the clock once.  The
    function need not be monotonic. *)
Theorem find_root_brackets_keep_sign_change
    (perf_counter : nat -> Q) (f : Q -> Q) (a0 b0 tolerance y : Q)
    (run_time_limit : Q) (n0 : nat)
    (k : nat) (a b : Q) (n : nat) :
  a0 < b0 -> ~ f a0 == f b0 ->
  sign_change (func_midpoint_of f y) a0 b0 ->
  brackets perf_counter k f tolerance (loop_flag f a0 b0 y) y
    run_time_limit (perf_counter n0) a0 b0 (S n0) = Some (a, b, n) ->
  sign_bracket (loop_flag f a0 b0 y) (func_midpoint_of f y) a b
  /\ sign_change (func_midpoint_of f y) a b
  /\ n = (n0 + k + 1)%nat.
Proof.
  intros Hab Hne Hs Hk.
  pose proof (loop_flag_signs f a0 b0 y Hne Hs) as Hs0.
  destruct (brackets_nested _ _ _ _ _ _ _ _ _ _ _ _ _ _ Hab Hk)
    as [(H1 & H2 & H3) Hn].
  destruct (brackets_invariant perf_counter f tolerance
              (loop_flag f a0 b0 y) y run_time_limit (perf_counter n0)
              (sign_bracket (loop_flag f a0 b0 y) (func_midpoint_of f y))
              (fun a' b' H => bracket_update_keeps_signs _ _ a' b' H)
              k a0 b0 (S n0) a b n Hs0 Hk) as [Hsk _].
  split; [exact Hsk |].
  split.
  - unfold sign_change, sign_bracket in *.
    destruct (loop_flag f a0 b0 y); [left | right]; exact Hsk.
  - lia.
Qed.

Lemma find_root_brackets_keep_sign_change_witness :
  sign_bracket (loop_flag function (-5) 5 0) (func_midpoint_of function 0)
    (0 # 2) (10 # 4)
  /\ sign_change (func_midpoint_of function 0) (0 # 2) (10 # 4)
  /\ 3%nat = (0 + 2 + 1)%nat.
Proof.
  apply (find_root_brackets_keep_sign_change
           frozen_clock function (-5) 5 (1 # 100000) 0 60 O 2
           (0 # 2) (10 # 4) 3).
  - vm_compute. reflexivity.
  - vm_compute. discriminate.
  - left. split; vm_compute; discriminate.
  - vm_compute. reflexivity.
Defined.

Section LipschitzConvergence.

Variable perf_counter : nat -> Q.
Variable f : Q -> Q.
Variables (tolerance : Q) (flag : bool).
Variables (y run_time_limit start_time : Q).
Variables (a0 b0 L : Q).

Let g := func_midpoint_of f y.

Hypothesis lipschitz : lipschitz_on g L a0 b0.
Hypothesis in_time :
  forall m : nat, ~ run_time_limit < perf_counter m - start_time.

(** A sign-changing bracket with [L * (b - a) <= tolerance * 2^(j+1)] is
    left through convergence after at most [j] further passes. *)
Lemma converges_within_lipschitz (j : nat) :
  forall (a b : Q) (n : nat),
    a0 <= a -> a < b -> b <= b0 -> sign_bracket flag g a b ->
    L * (b - a) <= tolerance * 2 ^ Z.of_nat (S j) ->
    exists (i : nat) (a1 b1 : Q) (n1 : nat),
      (i <= j)%nat /\
      brackets perf_counter i f tolerance flag y run_time_limit start_time
        a b n = Some (a1, b1, n1) /\
      Qabs (g ((a1 + b1) / 2)) <= tolerance.
Proof.
  induction j as [| j IH]; intros a b n Ha Hab Hb Hs Hw.
  - exists O, a, b, n. simpl. repeat split; try lia.
    pose proof (midpoint_value_bound flag g L a0 b0 a b lipschitz
                  Ha Hab Hb Hs) as Hv.
    change (2 ^ Z.of_nat 1) with 2 in Hw. lra.
  - destruct (Qle_bool_spec (Qabs (g ((a + b) / 2))) tolerance)
      as [Hc | Hc].
    + exists O, a, b, n. simpl. repeat split; try lia. exact Hc.
    + pose proof (loop_body_again perf_counter f tolerance flag y
                    run_time_limit start_time a b n Hc (in_time n))
        as Hbody.
      pose proof (bracket_update_keeps_signs flag g a b Hs) as Hs'.
      simpl in Hs'. fold g in Hbody.
      destruct (midpoint_between a b Hab) as [Hac Hcb].
      pose proof (midpoint_eq a b) as Hmid.
      rewrite pow2_succ in Hw.
      destruct (bracket_update_cases flag (g ((a + b) / 2)) a b
                  ((a + b) / 2)) as [E | E];
        rewrite E in Hbody, Hs'; simpl in Hbody, Hs'.
      * destruct (IH a ((a + b) / 2) (S n))
          as (i & a1 & b1 & n1 & Hi & Hbr & Hconv);
          try assumption; try lra.
        { assert (E' : L * ((a + b) / 2 - a) == L * (b - a) * (1 # 2))
            by (rewrite Hmid; ring).
          rewrite E'. lra. }
        exists (S i), a1, b1, n1. simpl. rewrite Hbody.
        repeat split; try assumption; lia.
      * destruct (IH ((a + b) / 2) b (S n))
          as (i & a1 & b1 & n1 & Hi & Hbr & Hconv);
          try assumption; try lra.
        { assert (E' : L * (b - (a + b) / 2) == L * (b - a) * (1 # 2))
            by (rewrite Hmid; ring).
          rewrite E'. lra. }
        exists (S i), a1, b1, n1. simpl. rewrite Hbody.
        repeat split; try assumption; lia.
Qed.

End LipschitzConvergence.

(** X6.  Bisection proper.  Let the checks be passed, the tested function
    have values of opposite signs at [a] and [b], [f] be Lipschitz with
    constant [L] on [[a, b]], and the clock never be past the limit.  If
    [L * (b - a) <= tolerance * 2^(j+1)], then [find_root] returns
    through convergence after at most [j] passes that stayed in the loop:
    the estimate is strictly inside the interval, the value there is
    within the tolerance, and the clock has been read [i + 2] times.
    Neither monotonicity between the ends nor a rational root is
    needed. *)
Theorem find_root_converges_on_sign_change
    (perf_counter : nat -> Q) (f : Q -> Q) (a b tolerance : Q)
    (is_increasing : bool) (y run_time_limit : Q) (n0 : nat)
    (L : Q) (j : nat) :
  a < b -> 0 < tolerance -> ~ f a == f b ->
  sign_change (func_midpoint_of f y) a b ->
  lipschitz_on f L a b ->
  never_late perf_counter n0 run_time_limit ->
  L * (b - a) <= tolerance * 2 ^ Z.of_nat (S j) ->
  exists (i : nat) (x t v : Q),
    (i <= j)%nat
    /\ (forall fuel : nat, (i < fuel)%nat ->
          find_root perf_counter f a b tolerance is_increasing y
            run_time_limit fuel n0 =
          Returned ((x, t, v), (n0 + readings Converged i)%nat))
    /\ v = func_midpoint_of f y x
    /\ Qabs v <= tolerance
    /\ a < x /\ x < b.
Proof.
  intros Hab Htol Hne Hs HL Hclock Hw.
  assert (Hin : forall m : nat,
            ~ run_time_limit < perf_counter m - perf_counter n0).
  { intros m. apply Qle_not_lt. apply Hclock. }
  destruct (converges_within_lipschitz perf_counter f tolerance
              (loop_flag f a b y) y run_time_limit (perf_counter n0)
              a b L (lipschitz_func_midpoint f y L a b HL) Hin j a b (S n0))
    as (i & a1 & b1 & n1 & Hi & Hbr & Hconv);
    try assumption; try lra.
  { apply loop_flag_signs; assumption. }
  destruct (brackets_nested _ _ _ _ _ _ _ _ _ _ _ _ _ _ Hab Hbr)
    as [(H1 & H2 & H3) Hn].
  destruct (midpoint_between a1 b1 H2) as [Hm1 Hm2].
  exists i, ((a1 + b1) / 2), (perf_counter n1 - perf_counter n0),
    (func_midpoint_of f y ((a1 + b1) / 2)).
  split; [exact Hi |].
  split; [| split; [reflexivity | split; [exact Hconv | split; lra]]].
  intros fuel Hfuel.
  rewrite (find_root_of_converged_bracket perf_counter f a b tolerance
             is_increasing y run_time_limit n0 i a1 b1 n1)
    by assumption.
  unfold readings. subst n1. repeat f_equal. lia.
Qed.

Lemma identity_lipschitz (a b : Q) : lipschitz_on identity 1 a b.
Proof.
  intros x z _ _ _ _. unfold identity. rewrite Qmult_1_l. apply Qle_refl.
Qed.

Lemma find_root_converges_on_sign_change_witness :
  exists (i : nat) (x t v : Q),
    (i <= 5)%nat
    /\ (forall fuel : nat, (i < fuel)%nat ->
          find_root frozen_clock identity 0 5 (1 # 10) true 3 60 fuel O =
          Returned ((x, t, v), (0 + readings Converged i)%nat))
    /\ v = func_midpoint_of identity 3 x
    /\ Qabs v <= 1 # 10
    /\ 0 < x /\ x < 5.
Proof.
  apply (find_root_converges_on_sign_change
           frozen_clock identity 0 5 (1 # 10) true 3 60 O 1 5).
  - vm_compute. reflexivity.
  - vm_compute. reflexivity.
  - vm_compute. discriminate.
  - right. split; vm_compute; discriminate.
  - apply identity_lipschitz.
  - intros m. vm_compute. discriminate.
  - vm_compute. discriminate.
Defined.

(** ** How far the estimate is from the root *)

(** With the flag telling the direction of the tested function, every
    bracket the loop goes through contains the root. *)
Lemma brackets_contain_root
    (perf_counter : nat -> Q) (f : Q -> Q) (tolerance : Q) (flag : bool)
    (y run_time_limit start_time a0 b0 r : Q)
    (k : nat) (n0 : nat) (a b : Q) (n : nat) :
  (if flag then strictly_increasing_on (func_midpoint_of f y) a0 b0
   else strictly_decreasing_on (func_midpoint_of f y) a0 b0) ->
  func_midpoint_of f y r == 0 ->
  a0 < b0 -> a0 <= r -> r <= b0 ->
  brackets perf_counter k f tolerance flag y run_time_limit start_time
    a0 b0 n0 = Some (a, b, n) ->
  a <= r /\ r <= b.
Proof.
  intros Hflag Hroot Hab Hlo Hhi Hbr.
  destruct (brackets_invariant perf_counter f tolerance flag
              y run_time_limit start_time
              (fun a' b' =>
                 a0 <= a' /\ a' < b' /\ b' <= b0 /\ a' <= r /\ r <= b'))
    with (k := k) (a0 := a0) (b0 := b0) (n0 := n0)
         (a := a) (b := b) (n := n)
    as [(H1 & H2 & H3 & H4 & H5) Hn]; try assumption.
  - intros a' b' (G1 & G2 & G3 & G4 & G5) c ab.
    destruct (bracket_update_keeps_root f flag y a0 b0 r
                Hflag Hroot a' b' G1 G3 G4 G5 G2) as [K1 K2].
    fold c in K1, K2. fold ab in K1, K2.
    destruct (midpoint_between a' b' G2) as [Hm1 Hm2]. fold c in Hm1, Hm2.
    unfold ab in *.
    destruct (bracket_update_cases flag (func_midpoint_of f y c) a' b' c)
      as [E | E]; rewrite E in *; simpl in *; repeat split; lra.
  - repeat split; lra.
  - split; assumption.
Qed.

(** X7.  Let [f] be strictly monotonic on [[a, b]] and [r] in [[a, b]] a
    root of the tested function.  Whatever [find_root] returns, through
    convergence or through the time limit, after [j] passes that stayed
    in the loop, is within [(b - a) / 2^(j+1)] of [r]; [j] can be read
    off the number of clock readings the call has made. *)
Theorem find_root_estimate_near_root
    (perf_counter : nat -> Q) (f : Q -> Q) (a b tolerance : Q)
    (is_increasing : bool) (y run_time_limit : Q) (fuel n0 : nat) (r : Q)
    (k : exit_kind) (x t v : Q) (n' : nat) :
  strictly_monotonic_on f a b -> brackets_root f y a b r ->
  find_root_traced perf_counter f a b tolerance is_increasing y
    run_time_limit fuel n0 = Returned ((k, (x, t, v)), n') ->
  exists j : nat,
    (j < fuel)%nat
    /\ n' = (n0 + readings k j)%nat
    /\ Qabs (x - r) <= (b - a) / 2 ^ Z.of_nat (S j).
Proof.
  intros Hmono (Hlo & Hhi & Hroot) Hrun.
  destruct (find_root_traced_returns_inv _ _ _ _ _ _ _ _ _ _ _ _ Hrun)
    as (Hab & _ & _ & Hloop).
  destruct (loop_flag_right f a b y Hmono Hab) as [_ Hflag].
  destruct (while_loop_returns_inv _ _ _ _ _ _ _ _ _ _ _ _ _ _ _ _
              Hab Hloop)
    as (j & a1 & b1 & n1 & Hj & Hbr & _ & _ & _ & -> & _ & Hleft).
  exists j. split; [exact Hj |].
  destruct (brackets_contain_root _ _ _ _ _ _ _ _ _ _ _ _ _ _ _
              Hflag Hroot Hab Hlo Hhi Hbr) as [H4 H5].
  destruct (brackets_nested _ _ _ _ _ _ _ _ _ _ _ _ _ _ Hab Hbr)
    as [(H1 & H2 & H3) Hn].
  split.
  - unfold left_through in Hleft.
    destruct k; simpl; [destruct Hleft as (_ & _ & ->)
                       | destruct Hleft as (_ & _ & _ & ->)]; lia.
  - pose proof (brackets_width _ _ _ _ _ _ _ _ _ _ _ _ _ _ Hbr) as Hw.
    pose proof (pow2_pos j) as Hp.
    pose proof (midpoint_eq a1 b1) as Hc.
    assert (Hhalf : (b - a) / 2 ^ Z.of_nat (S j) == (b1 - a1) * (1 # 2)).
    { rewrite Hw, pow2_succ. field. lra. }
    rewrite Hhalf. apply Qabs_Qle_condition. split; lra.
Qed.

Lemma find_root_estimate_near_root_witness :
  exists j : nat,
    (j < 20)%nat
    /\ 4%nat = (0 + readings TimedOut j)%nat
    /\ Qabs ((10 # 4) - 2) <= (5 - -5) / 2 ^ Z.of_nat (S j).
Proof.
  apply (find_root_estimate_near_root
           ticking_clock identity_shift (-5) 5 (1 # 10) true 0 1 20 O 2
           TimedOut (10 # 4) 3 (2 # 4)).
  - left. intros x z _ Hxz _. unfold identity_shift. lra.
  - repeat split; vm_compute; discriminate.
  - vm_compute. reflexivity.
Defined.

(** ** Failures of the wrapper *)

(** X8.  [find_inverse_value] tests the range of [y] before [find_root]
    tests anything.  So [y] outside [[a, b]] gives [OutOfRangeError]
    whatever else is wrong, and so does every interval with [b < a];
    [InvalidIntervalError] is left for [a = y = b]; with [a <= y <= b]
    the errors of [find_root] come through in their order; and with all
    four conditions met nothing is raised. *)
Theorem find_inverse_value_failures
    (perf_counter : nat -> Q) (f : Q -> Q) (y a b tolerance : Q)
    (is_increasing : bool) (fuel n : nat) :
  let call :=
    find_inverse_value perf_counter f y a b tolerance is_increasing fuel n
  in
  (y < a \/ b < y -> call = Raised OutOfRangeError)
  /\ (b < a -> call = Raised OutOfRangeError)
  /\ (a <= y -> y <= b -> b <= a -> call = Raised InvalidIntervalError)
  /\ (a <= y -> y <= b -> a < b -> tolerance <= 0 ->
      call = Raised InvalidToleranceError)
  /\ (a <= y -> y <= b -> a < b -> 0 < tolerance -> f a == f b ->
      call = Raised (NonMonotonicError a b))
  /\ (a <= y -> y <= b -> a < b -> 0 < tolerance -> ~ f a == f b ->
      forall e : exn, call <> Raised e).
Proof.
  intros call. unfold call. rewrite find_inverse_value_eq.
  assert (Hout : y < a \/ b < y ->
            Qle_bool a y && Qle_bool y b = false).
  { intros [H | H].
    - destruct (Qle_bool_spec a y); [exfalso; lra | reflexivity].
    - destruct (Qle_bool_spec y b); [exfalso; lra |].
      apply andb_false_r. }
  assert (Hin : a <= y -> y <= b -> Qle_bool a y && Qle_bool y b = true).
  { intros H1 H2.
    destruct (Qle_bool_spec a y); [| contradiction].
    destruct (Qle_bool_spec y b); [reflexivity | contradiction]. }
  split; [| split; [| split; [| split; [| split]]]].
  - intros H. rewrite (Hout H). reflexivity.
  - intros Hba. rewrite Hout; [reflexivity |].
    destruct (Qlt_le_dec y a) as [H | H]; [left; exact H | right; lra].
  - intros H1 H2 Hba. rewrite (Hin H1 H2), find_root_erases.
    rewrite find_root_traced_bad_interval by lra. reflexivity.
  - intros H1 H2 Hab Htol. rewrite (Hin H1 H2), find_root_erases.
    rewrite find_root_traced_bad_tolerance by (assumption || lra).
    reflexivity.
  - intros H1 H2 Hab Htol Heq. rewrite (Hin H1 H2), find_root_erases.
    rewrite find_root_traced_tie by assumption. reflexivity.
  - intros H1 H2 Hab Htol Hne e. rewrite (Hin H1 H2).
    destruct (find_root perf_counter f a b tolerance is_increasing y 180
                fuel (S n)) as [[[[x t] v] n'] | e' |] eqn:Hroot;
      try discriminate.
    exfalso. revert Hroot. rewrite find_root_erases.
    rewrite find_root_traced_checked by assumption.
    pose proof (while_loop_never_raises perf_counter f tolerance
                  (loop_flag f a b y) y 180 (perf_counter (S n))
                  fuel a b (S (S n))) as Hloop.
    destruct (while_loop perf_counter fuel f tolerance (loop_flag f a b y)
                y 180 (perf_counter (S n)) a b (S (S n)))
      as [[r0 n0] | e0 |]; try discriminate.
    exfalso. apply (Hloop e0). reflexivity.
Qed.

Lemma find_inverse_value_failures_witness :
  find_inverse_value frozen_clock function 3 5 0 (1 # 10) true 20 O =
    Raised OutOfRangeError
  /\ find_inverse_value frozen_clock function 3 3 3 (1 # 10) true 20 O =
       Raised InvalidIntervalError
  /\ find_inverse_value frozen_clock function 3 0 5 0 true 20 O =
       Raised InvalidToleranceError.
Proof.
  split; [| split].
  - apply (find_inverse_value_failures
             frozen_clock function 3 5 0 (1 # 10) true 20 O).
    vm_compute. reflexivity.
  - apply (find_inverse_value_failures
             frozen_clock function 3 3 3 (1 # 10) true 20 O);
      vm_compute; discriminate.
  - apply (find_inverse_value_failures
             frozen_clock function 3 0 5 0 true 20 O);
      try (vm_compute; discriminate).
    vm_compute. reflexivity.
Defined.

(** ** Elapsed times *)

Lemma find_root_elapsed
    (perf_counter : nat -> Q) (f : Q -> Q) (a b tolerance : Q)
    (is_increasing : bool) (y run_time_limit : Q) (fuel n0 : nat)
    (x t v : Q) (n' : nat) :
  find_root perf_counter f a b tolerance is_increasing y run_time_limit
    fuel n0 = Returned ((x, t, v), n') ->
  t = perf_counter (pred n') - perf_counter n0 /\ (n0 + 2 <= n')%nat.
Proof.
  intros Hrun.
  destruct (find_root_returns_inv _ _ _ _ _ _ _ _ _ _ _ _ Hrun) as [k Hk].
  destruct (find_root_traced_returns_inv _ _ _ _ _ _ _ _ _ _ _ _ Hk)
    as (Hab & _ & _ & Hloop).
  destruct (while_loop_returns_inv _ _ _ _ _ _ _ _ _ _ _ _ _ _ _ _
              Hab Hloop)
    as (j & a1 & b1 & n1 & _ & Hbr & _ & _ & _ & _ & _ & Hleft).
  destruct (brackets_nested _ _ _ _ _ _ _ _ _ _ _ _ _ _ Hab Hbr)
    as [_ Hn].
  unfold left_through in Hleft.
  destruct k; [destruct Hleft as (_ & -> & ->)
              | destruct Hleft as (_ & _ & -> & ->)];
    simpl; split; try reflexivity; lia.
Qed.

(** X9.  On a clock that does not run backwards the elapsed time
    [find_root] returns is not negative, and the elapsed time
    [find_inverse_value] returns is at least the one of the [find_root]
    call it made: the wrapper reads the clock once before and once after
    that call. *)
Theorem elapsed_times_ordered
    (perf_counter : nat -> Q) (f : Q -> Q) (y a b tolerance : Q)
    (is_increasing : bool) (fuel n : nat) :
  clock_monotone perf_counter ->
  (forall (lim x t v : Q) (n' : nat),
     find_root perf_counter f a b tolerance is_increasing y lim fuel n =
     Returned ((x, t, v), n') -> 0 <= t)
  /\ (forall (x tw : Q) (m : nat),
        find_inverse_value perf_counter f y a b tolerance is_increasing
          fuel n = Returned ((x, tw), m) ->
        exists (t v : Q) (n' : nat),
          find_root perf_counter f a b tolerance is_increasing y 180 fuel
            (S n) = Returned ((x, t, v), n')
          /\ m = S n' /\ 0 <= t /\ t <= tw).
Proof.
  intros Hmono. split.
  - intros lim x t v n' Hrun.
    destruct (find_root_elapsed _ _ _ _ _ _ _ _ _ _ _ _ _ _ Hrun)
      as [-> Hn].
    assert (H : perf_counter n <= perf_counter (pred n'))
      by (apply Hmono; lia).
    lra.
  - intros x tw m. rewrite find_inverse_value_eq.
    destruct (Qle_bool a y && Qle_bool y b); [| discriminate].
    destruct (find_root perf_counter f a b tolerance is_increasing y 180
                fuel (S n)) as [[[[x0 t0] v0] n0] | e |] eqn:Hrun;
      try discriminate.
    intros H. injection H as <- <- <-.
    exists t0, v0, n0. split; [reflexivity | split; [reflexivity |]].
    destruct (find_root_elapsed _ _ _ _ _ _ _ _ _ _ _ _ _ _ Hrun)
      as [-> Hn].
    assert (H1 : perf_counter (S n) <= perf_counter (pred n0))
      by (apply Hmono; lia).
    assert (H2 : perf_counter n <= perf_counter (S n))
      by (apply Hmono; lia).
    assert (H3 : perf_counter (pred n0) <= perf_counter n0)
      by (apply Hmono; lia).
    split; lra.
Qed.

Lemma ticking_clock_monotone : clock_monotone ticking_clock.
Proof.
  intros i j Hij. unfold ticking_clock. rewrite <- Zle_Qle. lia.
Qed.

Lemma elapsed_times_ordered_witness :
  exists (t v : Q) (n' : nat),
    find_root ticking_clock function 0 5 (1 # 10) true 3 180 20 1%nat =
    Returned ((440 # 128, t, v), n')
    /\ 7%nat = S n' /\ 0 <= t /\ t <= 6.
Proof.
  apply (elapsed_times_ordered ticking_clock function 3 0 5 (1 # 10) true
           20 O ticking_clock_monotone).
  vm_compute. reflexivity.
Defined.

(** ** A limit of zero *)

(** X10.  On a clock whose readings always advance, a limit of zero
    seconds or less lets [find_root] make one pass only: it returns the
    first midpoint [(a + b) / 2], through convergence when the value
    there is within the tolerance (the tolerance is tested first) and
    through the time limit otherwise.  One unit of fuel is enough. *)
Theorem find_root_single_pass_on_zero_limit
    (perf_counter : nat -> Q) (f : Q -> Q) (a b tolerance : Q)
    (is_increasing : bool) (y run_time_limit : Q) (n0 : nat) :
  clock_advances perf_counter -> run_time_limit <= 0 ->
  a < b -> 0 < tolerance -> ~ f a == f b ->
  let c := (a + b) / 2 in
  let v := func_midpoint_of f y c in
  forall fuel : nat, (0 < fuel)%nat ->
    (Qabs v <= tolerance /\
     find_root_traced perf_counter f a b tolerance is_increasing y
       run_time_limit fuel n0 =
     Returned ((Converged,
                (c, perf_counter (S n0) - perf_counter n0, v)),
               (n0 + 2)%nat))
    \/ (~ Qabs v <= tolerance /\
        find_root_traced perf_counter f a b tolerance is_increasing y
          run_time_limit fuel n0 =
        Returned ((TimedOut,
                   (c, perf_counter (S (S n0)) - perf_counter n0, v)),
                  (n0 + 3)%nat)).
Proof.
  intros Hclock Hlim Hab Htol Hne c v fuel Hfuel.
  rewrite find_root_traced_checked by assumption.
  destruct fuel as [| fuel]; [lia |].
  assert (Hlate : run_time_limit < perf_counter (S n0) - perf_counter n0).
  { pose proof (Hclock n0). lra. }
  destruct (loop_body_cases perf_counter f tolerance (loop_flag f a b y) y
              run_time_limit (perf_counter n0) a b (S n0))
    as [[Hc Hbody] | [[Hc [_ Hbody]] | [_ [Hl _]]]].
  - left. split; [exact Hc |].
    simpl. unfold bind at 1. rewrite Hbody.
    replace (n0 + 2)%nat with (S (S n0)) by lia. reflexivity.
  - right. split; [exact Hc |].
    simpl. unfold bind at 1. rewrite Hbody.
    replace (n0 + 3)%nat with (S (S (S n0))) by lia. reflexivity.
  - contradiction.
Qed.

Lemma ticking_clock_advances : clock_advances ticking_clock.
Proof.
  intros n. unfold ticking_clock. rewrite <- Zlt_Qlt. lia.
Qed.

Lemma find_root_single_pass_on_zero_limit_witness :
  (Qabs (func_midpoint_of function 0 ((-5 + 5) / 2)) <= 1 # 10 /\
   find_root_traced ticking_clock function (-5) 5 (1 # 10) true 0 0 1 O =
   Returned ((Converged,
              ((-5 + 5) / 2, ticking_clock 1 - ticking_clock 0,
               func_midpoint_of function 0 ((-5 + 5) / 2))),
             (0 + 2)%nat))
  \/ (~ Qabs (func_midpoint_of function 0 ((-5 + 5) / 2)) <= 1 # 10 /\
      find_root_traced ticking_clock function (-5) 5 (1 # 10) true 0 0 1 O =
      Returned ((TimedOut,
                 ((-5 + 5) / 2, ticking_clock 2 - ticking_clock 0,
                  func_midpoint_of function 0 ((-5 + 5) / 2))),
                (0 + 3)%nat)).
Proof.
  apply (find_root_single_pass_on_zero_limit
           ticking_clock function (-5) 5 (1 # 10) true 0 0 O
           ticking_clock_advances).
  - vm_compute. discriminate.
  - vm_compute. reflexivity.
  - vm_compute. reflexivity.
  - vm_compute. discriminate.
  - lia.
Defined.

(** ** The demonstration function *)

Lemma Qsquare_nonneg (u : Q) : 0 <= u * u.
Proof.
  destruct (Qlt_le_dec u 0) as [H | H].
  - setoid_replace (u * u) with ((- u) * (- u)) by ring.
    apply Qmult_le_0_compat; lra.
  - apply Qmult_le_0_compat; lra.
Qed.

Lemma Qsquare_pos (u : Q) : ~ u == 0 -> 0 < u * u.
Proof.
  intros Hu. destruct (Q_dec u 0) as [[H | H] | H]; [| | contradiction].
  - setoid_replace (u * u) with ((- u) * (- u)) by ring.
    apply Qmult_lt_0_compat; lra.
  - apply Qmult_lt_0_compat; lra.
Qed.

Lemma function_cube (x : Q) : function x == (x - 2) * (x - 2) * (x - 2).
Proof.
  unfold function. simpl. ring.
Qed.

Lemma function_increasing (a b : Q) : strictly_increasing_on function a b.
Proof.
  intros x z _ Hxz _. rewrite !function_cube.
  set (u := x - 2). set (w := z - 2).
  assert (Hd : 0 < w - u) by (unfold u, w; lra).
  assert (Hq : 0 < (2 * w + u) * (2 * w + u) + 3 * (u * u)).
  { destruct (Qeq_dec u 0) as [E | E].
    - assert (Hn : ~ 2 * w + u == 0) by lra.
      pose proof (Qsquare_pos _ Hn). pose proof (Qsquare_nonneg u). lra.
    - pose proof (Qsquare_pos _ E).
      pose proof (Qsquare_nonneg (2 * w + u)). lra. }
  assert (E : w * w * w - u * u * u ==
              (w - u) * (((2 * w + u) * (2 * w + u) + 3 * (u * u)) * (1 # 4)))
    by ring.
  assert (Hp : 0 < (w - u) *
                   (((2 * w + u) * (2 * w + u) + 3 * (u * u)) * (1 # 4)))
    by (apply Qmult_lt_0_compat; lra).
  lra.
Qed.

(** X11.  Over exact arithmetic, without the rounding and the overflow
    of the float power: the function of the demonstration is strictly
    increasing on every interval and vanishes at 2 and nowhere else; so
    the check returns [True] for it on every interval with [a < b], and
    [find_root] raises nothing on it when moreover the tolerance is
    positive. *)
Theorem function_increasing_with_root_two
    (perf_counter : nat -> Q) (a b tolerance : Q) (is_increasing : bool)
    (y run_time_limit : Q) (fuel n : nat) :
  strictly_increasing_on function a b
  /\ (forall x : Q, function x == 0 <-> x == 2)
  /\ (a < b ->
      check_strict_monotonicity function a b n = Returned (true, n))
  /\ (a < b -> 0 < tolerance ->
      forall e : exn,
        find_root perf_counter function a b tolerance is_increasing y
          run_time_limit fuel n <> Raised e).
Proof.
  pose proof (function_increasing a b) as Hinc.
  split; [exact Hinc |]. split; [| split].
  - intros x. split.
    + intros Hx.
      destruct (Q_dec x 2) as [[H | H] | H]; [| | exact H]; exfalso.
      * pose proof (function_increasing x 2 x 2 (Qle_refl x) H
                      (Qle_refl 2)) as Hlt.
        change (function 2) with (0 # 1) in Hlt. lra.
      * pose proof (function_increasing 2 x 2 x (Qle_refl 2) H
                      (Qle_refl x)) as Hlt.
        change (function 2) with (0 # 1) in Hlt. lra.
    + intros Hx. rewrite function_cube, Hx. reflexivity.
  - intros Hab.
    assert (Hends : function a < function b) by (apply Hinc; lra).
    rewrite check_strict_monotonicity_ok by lra.
    destruct (Qlt_bool_spec (function a) (function b));
      [reflexivity | contradiction].
  - intros Hab Htol e.
    assert (Hends : function a < function b) by (apply Hinc; lra).
    rewrite find_root_erases, find_root_traced_checked
      by (assumption || lra).
    pose proof (while_loop_never_raises perf_counter function tolerance
                  (loop_flag function a b y) y run_time_limit
                  (perf_counter n) fuel a b (S n)) as Hloop.
    destruct (while_loop perf_counter fuel function tolerance
                (loop_flag function a b y) y run_time_limit
                (perf_counter n) a b (S n)) as [[r n'] | e' |];
      try discriminate.
    intros H. apply (Hloop e'). reflexivity.
Qed.

Lemma function_increasing_with_root_two_witness :
  check_strict_monotonicity function (-5) 5 O = Returned (true, O).
Proof.
  apply (function_increasing_with_root_two
           frozen_clock (-5) 5 (1 # 10) true 0 60 20 O).
  vm_compute. reflexivity.
Defined.

Lemma function_lipschitz (a b M : Q) :
  - M <= a - 2 -> b - 2 <= M -> lipschitz_on function (3 * M * M) a b.
Proof.
  intros Ha Hb x z Hx1 Hx2 Hz1 Hz2. rewrite !function_cube.
  set (u := x - 2). set (w := z - 2).
  assert (Hu : - M <= u /\ u <= M) by (unfold u; split; lra).
  assert (Hw : - M <= w /\ w <= M) by (unfold w; split; lra).
  destruct Hu as [Hu1 Hu2]. destruct Hw as [Hw1 Hw2].
  set (q := u * u + u * w + w * w).
  assert (Hq0 : 0 <= q).
  { assert (E : q == ((2 * w + u) * (2 * w + u) + 3 * (u * u)) * (1 # 4))
      by (unfold q; ring).
    pose proof (Qsquare_nonneg (2 * w + u)).
    pose proof (Qsquare_nonneg u). lra. }
  assert (Hq1 : q <= 3 * M * M).
  { assert (P1 : 0 <= (M - u) * (M + u))
      by (apply Qmult_le_0_compat; lra).
    assert (P2 : 0 <= (M - w) * (M + w))
      by (apply Qmult_le_0_compat; lra).
    assert (P3 : 0 <= (M - u) * (M + w))
      by (apply Qmult_le_0_compat; lra).
    assert (P4 : 0 <= (M + u) * (M - w))
      by (apply Qmult_le_0_compat; lra).
    assert (E : 3 * M * M - q ==
                (M - u) * (M + u) + (M - w) * (M + w)
                + ((M - u) * (M + w) + (M + u) * (M - w)) * (1 # 2))
      by (unfold q; ring).
    lra. }
  assert (E : u * u * u - w * w * w == (u - w) * q) by (unfold q; ring).
  assert (Exz : x - z == u - w) by (unfold u, w; ring).
  rewrite E, Exz, Qabs_Qmult, (Qabs_pos q Hq0).
  rewrite (Qmult_comm (Qabs (u - w)) q).
  apply Qmult_le_compat_r; [exact Hq1 | apply Qabs_nonneg].
Qed.

(** ** The demonstration *)

Lemma find_root_checked_never_raises
    (perf_counter : nat -> Q) (f : Q -> Q) (a b tolerance : Q)
    (is_increasing : bool) (y run_time_limit : Q) (fuel n : nat) (e : exn) :
  a < b -> 0 < tolerance -> ~ f a == f b ->
  find_root perf_counter f a b tolerance is_increasing y run_time_limit
    fuel n <> Raised e.
Proof.
  intros Hab Htol Hne.
  rewrite find_root_erases, find_root_traced_checked by assumption.
  pose proof (while_loop_never_raises perf_counter f tolerance
                (loop_flag f a b y) y run_time_limit (perf_counter n)
                fuel a b (S n)) as Hloop.
  destruct (while_loop perf_counter fuel f tolerance (loop_flag f a b y) y
              run_time_limit (perf_counter n) a b (S n))
    as [[r n'] | e' |]; try discriminate.
  intros H. apply (Hloop e'). reflexivity.
Qed.

Lemma find_root_returns_on_sign_change
    (perf_counter : nat -> Q) (f : Q -> Q) (a b tolerance : Q)
    (is_increasing : bool) (y run_time_limit : Q) (n0 : nat)
    (L : Q) (j : nat) :
  a < b -> 0 < tolerance -> ~ f a == f b ->
  sign_change (func_midpoint_of f y) a b ->
  lipschitz_on f L a b ->
  never_late perf_counter n0 run_time_limit ->
  L * (b - a) <= tolerance * 2 ^ Z.of_nat (S j) ->
  exists (x t : Q) (n' : nat),
    (forall fuel : nat, (j < fuel)%nat ->
       find_root perf_counter f a b tolerance is_increasing y
         run_time_limit fuel n0 =
       Returned ((x, t, func_midpoint_of f y x), n'))
    /\ Qabs (func_midpoint_of f y x) <= tolerance
    /\ a < x /\ x < b.
Proof.
  intros Hab Htol Hne Hs HL Hclock Hw.
  assert (Hin : forall m : nat,
            ~ run_time_limit < perf_counter m - perf_counter n0).
  { intros m. apply Qle_not_lt. apply Hclock. }
  destruct (converges_within_lipschitz perf_counter f tolerance
              (loop_flag f a b y) y run_time_limit (perf_counter n0)
              a b L (lipschitz_func_midpoint f y L a b HL) Hin j a b (S n0))
    as (i & a1 & b1 & n1 & Hi & Hbr & Hconv);
    try assumption; try lra.
  { apply loop_flag_signs; assumption. }
  destruct (brackets_nested _ _ _ _ _ _ _ _ _ _ _ _ _ _ Hab Hbr)
    as [(H1 & H2 & H3) _].
  destruct (midpoint_between a1 b1 H2) as [Hm1 Hm2].
  exists ((a1 + b1) / 2), (perf_counter n1 - perf_counter n0), (S n1).
  split; [| split; [exact Hconv | split; lra]].
  intros fuel Hfuel.
  apply (find_root_of_converged_bracket perf_counter f a b tolerance
           is_increasing y run_time_limit n0 i a1 b1 n1);
    try assumption. lia.
Qed.

(** X12.  [main] raises nothing, on any clock.  On a clock that never
    shows more than 60 seconds between two readings, and with fuel for 44
    passes, both its calls return: the root estimate is strictly between
    -5 and 5 with [|f(root)| <= 1e-10], and the inverse estimate for
    [y = 3] is strictly between 0 and 5 with [|3 - f(inverse)| <= 1e-10]
    (the inverse value itself, [2 + 3^(1/3)], is not rational). *)
Theorem main_returns_estimates (perf_counter : nat -> Q) (n0 : nat) :
  (forall (fuel : nat) (e : exn), main perf_counter fuel n0 <> Raised e)
  /\ ((forall m n : nat, perf_counter m - perf_counter n <= 60) ->
      exists (root t1 inverse t2 : Q) (n' : nat),
        (forall fuel : nat, (43 < fuel)%nat ->
           main perf_counter fuel n0 =
           Returned (((root, t1, function root), (inverse, t2)), n'))
        /\ Qabs (function root) <= 1 # 10000000000
        /\ Qabs (3 - function inverse) <= 1 # 10000000000
        /\ -5 < root /\ root < 5 /\ 0 < inverse /\ inverse < 5).
Proof.
  split.
  - intros fuel e. unfold main, bind at 1.
    pose proof (fun e' =>
      find_root_checked_never_raises perf_counter function (-5) 5
        (1 # 10000000000) true 0 default_run_time_limit fuel n0 e'
        eq_refl eq_refl ltac:(vm_compute; discriminate)) as H1.
    destruct (find_root perf_counter function (-5) 5 (1 # 10000000000) true
                0 default_run_time_limit fuel n0)
      as [[r n1] | e1 |]; [| intros _; exact (H1 e1 eq_refl) | discriminate].
    unfold bind at 1. rewrite find_inverse_value_eq.
    change (Qle_bool 0 3 && Qle_bool 3 5) with true. cbv iota.
    pose proof (fun e' =>
      find_root_checked_never_raises perf_counter function 0 5
        (1 # 10000000000) true 3 180 fuel (S n1) e'
        eq_refl eq_refl ltac:(vm_compute; discriminate)) as H2.
    destruct (find_root perf_counter function 0 5 (1 # 10000000000) true 3
                180 fuel (S n1))
      as [[[[x t] v] n2] | e2 |]; [| intros _; exact (H2 e2 eq_refl) |];
      discriminate.
  - intros Hclock.
    destruct (find_root_returns_on_sign_change perf_counter function (-5) 5
                (1 # 10000000000) true 0 default_run_time_limit n0
                (3 * 7 * 7) 43)
      as (root & t1 & n1 & Hrun1 & Hconv1 & Hlo1 & Hhi1);
      try (vm_compute; reflexivity); try (vm_compute; discriminate).
    { left. split; vm_compute; discriminate. }
    { apply function_lipschitz; vm_compute; discriminate. }
    { intros m. apply Hclock. }
    destruct (find_root_returns_on_sign_change perf_counter function 0 5
                (1 # 10000000000) true 3 180 (S n1) (3 * 3 * 3) 43)
      as (inverse & t2 & n2 & Hrun2 & Hconv2 & Hlo2 & Hhi2);
      try (vm_compute; reflexivity); try (vm_compute; discriminate).
    { right. split; vm_compute; discriminate. }
    { apply function_lipschitz; vm_compute; discriminate. }
    { intros m. pose proof (Hclock m (S n1)). lra. }
    change (func_midpoint_of function 0 root) with (function root)
      in Hrun1, Hconv1.
    change (func_midpoint_of function 3 inverse)
      with (3 - function inverse) in Hrun2, Hconv2.
    exists root, t1, inverse, (perf_counter n2 - perf_counter n1), (S n2).
    split; [| repeat split; assumption].
    intros fuel Hfuel. unfold main, bind at 1.
    rewrite (Hrun1 fuel Hfuel). unfold bind at 1.
    rewrite find_inverse_value_eq.
    change (Qle_bool 0 3 && Qle_bool 3 5) with true. cbv iota.
    rewrite (Hrun2 fuel Hfuel). reflexivity.
Qed.

Lemma main_returns_estimates_witness :
  exists (root t1 inverse t2 : Q) (n' : nat),
    (forall fuel : nat, (43 < fuel)%nat ->
       main frozen_clock fuel O =
       Returned (((root, t1, function root), (inverse, t2)), n'))
    /\ Qabs (function root) <= 1 # 10000000000
    /\ Qabs (3 - function inverse) <= 1 # 10000000000
    /\ -5 < root /\ root < 5 /\ 0 < inverse /\ inverse < 5.
Proof.
  apply (main_returns_estimates frozen_clock O).
  intros m n. vm_compute. discriminate.
Defined.

(** ** Round trip through the wrapper *)

(** A Lipschitz function takes equal values at equal arguments. *)
Lemma lipschitz_respects_eq (g : Q -> Q) (L a b x z : Q) :
  lipschitz_on g L a b -> a <= x -> x <= b -> a <= z -> z <= b ->
  x == z -> g x == g z.
Proof.
  intros HL Hx1 Hx2 Hz1 Hz2 Hxz.
  pose proof (HL x z Hx1 Hx2 Hz1 Hz2) as H.
  assert (E : Qabs (x - z) == 0).
  { setoid_replace (x - z) with 0 by lra. reflexivity. }
  rewrite E, Qmult_0_r in H.
  apply Qabs_Qle_condition in H. lra.
Qed.

(** A root inside the interval of a strictly monotonic Lipschitz
    function gives values of opposite signs at the ends. *)
Lemma sign_change_of_root (f : Q -> Q) (y a b r L : Q) :
  strictly_monotonic_on f a b -> lipschitz_on f L a b -> a < b ->
  brackets_root f y a b r ->
  sign_change (func_midpoint_of f y) a b.
Proof.
  intros Hmono HL Hab (Hlo & Hhi & Hroot).
  pose proof (lipschitz_func_midpoint f y L a b HL) as HLg.
  destruct (loop_flag_right f a b y Hmono Hab) as [_ Hflag].
  set (g := func_midpoint_of f y) in *.
  assert (Ha : a < r \/ g a == g r).
  { destruct (Qlt_le_dec a r) as [H | H]; [left; exact H | right].
    apply (lipschitz_respects_eq g L a b); [exact HLg | lra ..]. }
  assert (Hb : r < b \/ g r == g b).
  { destruct (Qlt_le_dec r b) as [H | H]; [left; exact H | right].
    apply (lipschitz_respects_eq g L a b); [exact HLg | lra ..]. }
  unfold sign_change.
  destruct (loop_flag f a b y); [left | right]; split.
  - destruct Ha as [H | H]; [| lra].
    pose proof (Hflag a r (Qle_refl a) H Hhi). lra.
  - destruct Hb as [H | H]; [| lra].
    pose proof (Hflag r b Hlo H (Qle_refl b)). lra.
  - destruct Ha as [H | H]; [| lra].
    pose proof (Hflag a r (Qle_refl a) H Hhi). lra.
  - destruct Hb as [H | H]; [| lra].
    pose proof (Hflag r b Hlo H (Qle_refl b)). lra.
Qed.

(** X13.  Round trip.  Let [f] be strictly monotonic and Lipschitz with
    constant [L] on [[a, b]], [x0] a point of the interval whose value
    [f x0] passes the range test of the wrapper, the tolerance positive
    and the clock never past 180 seconds.  If
    [L * (b - a) <= tolerance * 2^(j+1)], then
    [find_inverse_value f (f x0)] returns, after [i <= j] passes that
    stayed in the loop and [i + 4] clock readings, an [x] with
    [|f x0 - f x| <= tolerance] and [|x - x0| <= (b - a) / 2^(i+1)]. *)
Theorem find_inverse_value_round_trip
    (perf_counter : nat -> Q) (f : Q -> Q) (a b tolerance : Q)
    (is_increasing : bool) (n : nat) (x0 L : Q) (j : nat) :
  strictly_monotonic_on f a b -> lipschitz_on f L a b ->
  a < b -> 0 < tolerance ->
  a <= x0 -> x0 <= b -> a <= f x0 -> f x0 <= b ->
  never_late perf_counter (S n) 180 ->
  L * (b - a) <= tolerance * 2 ^ Z.of_nat (S j) ->
  exists (i : nat) (x tw : Q),
    (i <= j)%nat
    /\ (forall fuel : nat, (i < fuel)%nat ->
          find_inverse_value perf_counter f (f x0) a b tolerance
            is_increasing fuel n = Returned ((x, tw), (n + i + 4)%nat))
    /\ Qabs (f x0 - f x) <= tolerance
    /\ Qabs (x - x0) <= (b - a) / 2 ^ Z.of_nat (S i)
    /\ a < x /\ x < b.
Proof.
  intros Hmono HL Hab Htol Hx1 Hx2 Hy1 Hy2 Hclock Hw.
  set (y := f x0) in *.
  assert (Hroot : brackets_root f y a b x0).
  { split; [exact Hx1 | split; [exact Hx2 |]].
    unfold func_midpoint_of.
    destruct (Qeq_bool_spec y 0) as [H | H]; [exact H | unfold y; ring]. }
  destruct (loop_flag_right f a b y Hmono Hab) as [Hne Hflag].
  pose proof (sign_change_of_root f y a b x0 L Hmono HL Hab Hroot) as Hs.
  assert (Hin : forall m : nat,
            ~ 180 < perf_counter m - perf_counter (S n)).
  { intros m. apply Qle_not_lt. apply Hclock. }
  destruct (converges_within_lipschitz perf_counter f tolerance
              (loop_flag f a b y) y 180 (perf_counter (S n))
              a b L (lipschitz_func_midpoint f y L a b HL) Hin j a b
              (S (S n)))
    as (i & a1 & b1 & n1 & Hi & Hbr & Hconv);
    try assumption; try lra.
  { apply loop_flag_signs; assumption. }
  destruct (brackets_nested _ _ _ _ _ _ _ _ _ _ _ _ _ _ Hab Hbr)
    as [(H1 & H2 & H3) Hn].
  destruct Hroot as (Hlo & Hhi & Hzero).
  destruct (brackets_contain_root _ _ _ _ _ _ _ _ _ _ _ _ _ _ _
              Hflag Hzero Hab Hlo Hhi Hbr) as [H4 H5].
  destruct (midpoint_between a1 b1 H2) as [Hm1 Hm2].
  pose proof (midpoint_eq a1 b1) as Hc.
  exists i, ((a1 + b1) / 2), (perf_counter (S n1) - perf_counter n).
  split; [exact Hi |].
  split; [| split; [| split; [| split; lra]]].
  - intros fuel Hfuel. rewrite find_inverse_value_eq.
    destruct (Qle_bool_spec a y) as [_ | Hn']; [| contradiction].
    destruct (Qle_bool_spec y b) as [_ | Hn']; [| contradiction].
    simpl andb. cbv iota.
    rewrite (find_root_of_converged_bracket perf_counter f a b tolerance
               is_increasing y 180 (S n) i a1 b1 n1) by assumption.
    subst n1. repeat f_equal. lia.
  - unfold func_midpoint_of in Hconv.
    destruct (Qeq_bool_spec y 0) as [H | H]; [| exact Hconv].
    setoid_replace (y - f ((a1 + b1) / 2)) with (- f ((a1 + b1) / 2))
      by lra.
    rewrite Qabs_opp. exact Hconv.
  - pose proof (brackets_width _ _ _ _ _ _ _ _ _ _ _ _ _ _ Hbr) as Hwd.
    pose proof (pow2_pos i) as Hp.
    assert (Hhalf : (b - a) / 2 ^ Z.of_nat (S i) == (b1 - a1) * (1 # 2)).
    { rewrite Hwd, pow2_succ. field. lra. }
    rewrite Hhalf. apply Qabs_Qle_condition. split; lra.
Qed.

Lemma find_inverse_value_round_trip_witness :
  exists (i : nat) (x tw : Q),
    (i <= 5)%nat
    /\ (forall fuel : nat, (i < fuel)%nat ->
          find_inverse_value frozen_clock identity (identity 3) 0 5
            (1 # 10) true fuel O = Returned ((x, tw), (0 + i + 4)%nat))
    /\ Qabs (identity 3 - identity x) <= 1 # 10
    /\ Qabs (x - 3) <= (5 - 0) / 2 ^ Z.of_nat (S i)
    /\ 0 < x /\ x < 5.
Proof.
  apply (find_inverse_value_round_trip
           frozen_clock identity 0 5 (1 # 10) true O 3 1 5).
  - apply identity_increasing.
  - apply identity_lipschitz.
  - vm_compute. reflexivity.
  - vm_compute. reflexivity.
  - vm_compute. discriminate.
  - vm_compute. discriminate.
  - vm_compute. discriminate.
  - vm_compute. discriminate.
  - intros m. vm_compute. discriminate.
  - vm_compute. discriminate.
Defined.

(** ** The time limit as a guarantee of termination *)

(** A loop whose last affordable pass reads the clock past the limit
    leaves within its fuel. *)
Lemma while_loop_leaves_when_late
    (perf_counter : nat -> Q) (f : Q -> Q) (tolerance : Q) (flag : bool)
    (y run_time_limit start_time : Q) (fuel : nat) :
  forall (a b : Q) (n : nat),
    run_time_limit < perf_counter (n + fuel)%nat - start_time ->
    exists (k : exit_kind) (r : Q * Q * Q) (n' : nat),
      while_loop perf_counter (S fuel) f tolerance flag y run_time_limit
        start_time a b n = Returned ((k, r), n').
Proof.
  induction fuel as [| fuel IH]; intros a b n Hlate.
  - replace (n + 0)%nat with n in Hlate by lia.
    simpl. unfold bind at 1.
    destruct (loop_body_cases perf_counter f tolerance flag y
                run_time_limit start_time a b n)
      as [[_ ->] | [[_ [_ ->]] | [_ [Hl _]]]].
    + eexists _, _, _. reflexivity.
    + eexists _, _, _. reflexivity.
    + contradiction.
  - change (while_loop perf_counter (S (S fuel)) f tolerance flag y
              run_time_limit start_time a b n)
      with (bind (loop_body perf_counter f tolerance flag y run_time_limit
                    start_time a b)
              (fun it =>
                 match it with
                 | Leave k result => ret (k, result)
                 | Again a' b' =>
                     while_loop perf_counter (S fuel) f tolerance flag y
                       run_time_limit start_time a' b'
                 end) n).
    unfold bind at 1.
    destruct (loop_body_cases perf_counter f tolerance flag y
                run_time_limit start_time a b n)
      as [[_ ->] | [[_ [_ ->]] | [_ [_ ->]]]].
    + eexists _, _, _. reflexivity.
    + eexists _, _, _. reflexivity.
    + apply IH. replace (S n + fuel)%nat with (n + S fuel)%nat by lia.
      exact Hlate.
Qed.

(** X14.  The time limit makes [find_root] return whatever the function
    does.  With the checks passed, if the reading of the clock in pass
    number [p] is past the limit, the call returns in pass [p] at the
    latest, through one of its two exits and with fuel for [p] passes,
    having read the clock at most [p + 2] times; convergence is not
    needed, and no property of [f] is used. *)
Theorem find_root_returns_once_late
    (perf_counter : nat -> Q) (f : Q -> Q) (a b tolerance : Q)
    (is_increasing : bool) (y run_time_limit : Q) (n0 p : nat) :
  a < b -> 0 < tolerance -> ~ f a == f b ->
  (0 < p)%nat ->
  run_time_limit < perf_counter (n0 + p)%nat - perf_counter n0 ->
  exists (k : exit_kind) (x t v : Q) (n' : nat),
    find_root_traced perf_counter f a b tolerance is_increasing y
      run_time_limit p n0 = Returned ((k, (x, t, v)), n')
    /\ find_root perf_counter f a b tolerance is_increasing y
         run_time_limit p n0 = Returned ((x, t, v), n')
    /\ (n' <= n0 + p + 2)%nat.
Proof.
  intros Hab Htol Hne Hp Hlate.
  destruct p as [| p]; [lia |].
  destruct (while_loop_leaves_when_late perf_counter f tolerance
              (loop_flag f a b y) y run_time_limit (perf_counter n0) p
              a b (S n0)) as (k & [[x t] v] & n' & Hrun).
  { replace (S n0 + p)%nat with (n0 + S p)%nat by lia. exact Hlate. }
  exists k, x, t, v, n'.
  assert (Htraced :
    find_root_traced perf_counter f a b tolerance is_increasing y
      run_time_limit (S p) n0 = Returned ((k, (x, t, v)), n')).
  { rewrite find_root_traced_checked by assumption. exact Hrun. }
  split; [exact Htraced |].
  split; [rewrite find_root_erases, Htraced; reflexivity |].
  destruct (while_loop_returns_inv _ _ _ _ _ _ _ _ _ _ _ _ _ _ _ _
              Hab Hrun)
    as (j & a1 & b1 & n1 & Hj & Hbr & H1 & H2 & H3 & -> & _ & Hleft).
  destruct (brackets_nested _ _ _ _ _ _ _ _ _ _ _ _ _ _ Hab Hbr)
    as [_ Hn].
  unfold left_through in Hleft.
  destruct k; [destruct Hleft as (_ & _ & ->)
              | destruct Hleft as (_ & _ & _ & ->)]; lia.
Qed.

Lemma find_root_returns_once_late_witness :
  exists (k : exit_kind) (x t v : Q) (n' : nat),
    find_root_traced ticking_clock jump (-1) 2 (1 # 2) true 0 3 4 O =
      Returned ((k, (x, t, v)), n')
    /\ find_root ticking_clock jump (-1) 2 (1 # 2) true 0 3 4 O =
         Returned ((x, t, v), n')
    /\ (n' <= 0 + 4 + 2)%nat.
Proof.
  apply (find_root_returns_once_late
           ticking_clock jump (-1) 2 (1 # 2) true 0 3 O 4).
  - vm_compute. reflexivity.
  - vm_compute. reflexivity.
  - vm_compute. discriminate.
  - lia.
  - vm_compute. reflexivity.
Defined.

(** * The passes of the loop and what [find_root] returns *)

Lemma brackets_snoc
    (perf_counter : nat -> Q) (f : Q -> Q) (tolerance : Q) (flag : bool)
    (y run_time_limit start_time : Q) (k : nat) :
  forall (a0 b0 : Q) (n0 : nat) (a b : Q) (n : nat) (a' b' : Q) (n' : nat),
    brackets perf_counter k f tolerance flag y run_time_limit start_time
      a0 b0 n0 = Some (a, b, n) ->
    loop_body perf_counter f tolerance flag y run_time_limit start_time
      a b n = Returned (Again a' b', n') ->
    brackets perf_counter (S k) f tolerance flag y run_time_limit
      start_time a0 b0 n0 = Some (a', b', n').
Proof.
  induction k as [| k IH]; intros a0 b0 n0 a b n a' b' n' Hk Hbody.
  - simpl in Hk. injection Hk as <- <- <-. simpl. rewrite Hbody.
    reflexivity.
  - change (brackets perf_counter (S (S k)) f tolerance flag y
              run_time_limit start_time a0 b0 n0)
      with (match loop_body perf_counter f tolerance flag y run_time_limit
                    start_time a0 b0 n0 with
            | Returned (Again a1 b1, n1) =>
                brackets perf_counter (S k) f tolerance flag y
                  run_time_limit start_time a1 b1 n1
            | _ => None
            end).
    simpl in Hk.
    destruct (loop_body perf_counter f tolerance flag y run_time_limit
                start_time a0 b0 n0)
      as [[[ek r | a1 b1] n1] | e |]; try discriminate.
    exact (IH a1 b1 n1 a b n a' b' n' Hk Hbody).
Qed.

(** What [find_root] returns when the bracket reached after [k] passes
    makes it leave, through either exit. *)
Lemma find_root_traced_of_bracket
    (perf_counter : nat -> Q) (f : Q -> Q) (a0 b0 tolerance : Q)
    (is_increasing : bool) (y run_time_limit : Q) (n0 : nat)
    (k : nat) (a b : Q) (n : nat) :
  a0 < b0 -> 0 < tolerance -> ~ f a0 == f b0 ->
  brackets perf_counter k f tolerance (loop_flag f a0 b0 y) y
    run_time_limit (perf_counter n0) a0 b0 (S n0) = Some (a, b, n) ->
  let c := (a + b) / 2 in
  let v := if Qeq_bool y 0 then f c else y - f c in
  (Qabs v <= tolerance ->
   forall fuel : nat, (k < fuel)%nat ->
     find_root_traced perf_counter f a0 b0 tolerance is_increasing y
       run_time_limit fuel n0 =
     Returned ((Converged, (c, perf_counter n - perf_counter n0, v)), S n))
  /\ (~ Qabs v <= tolerance ->
      run_time_limit < perf_counter n - perf_counter n0 ->
      forall fuel : nat, (k < fuel)%nat ->
        find_root_traced perf_counter f a0 b0 tolerance is_increasing y
          run_time_limit fuel n0 =
        Returned ((TimedOut,
                   (c, perf_counter (S n) - perf_counter n0, v)),
                  S (S n))).
Proof.
  intros Hab Htol Hne Hk c v.
  change v with (func_midpoint_of f y c).
  split.
  - intros Hconv fuel Hfuel.
    rewrite find_root_traced_checked by assumption.
    replace fuel with (k + S (fuel - S k))%nat by lia.
    rewrite (while_loop_brackets _ _ _ _ _ _ _ _ _ _ _ _ _ _ _ Hk).
    simpl. unfold bind at 1.
    rewrite loop_body_converged by exact Hconv. reflexivity.
  - intros Hconv Hlate fuel Hfuel.
    rewrite find_root_traced_checked by assumption.
    replace fuel with (k + S (fuel - S k))%nat by lia.
    rewrite (while_loop_brackets _ _ _ _ _ _ _ _ _ _ _ _ _ _ _ Hk).
    simpl. unfold bind at 1.
    rewrite loop_body_timed_out by assumption. reflexivity.
Qed.

(** C4.  Let the loop have made [k] passes without leaving, and let the
    next pass find the value at the midpoint [c] of the live bracket
    ([f c] when [y] is zero, [y - f c] otherwise) beyond the tolerance
    and the clock past the limit.  Then [find_root] raises nothing: it
    returns [c], the time elapsed at a later reading of the clock, and
    that value, which is beyond the tolerance.  On a clock that does not
    run backwards the elapsed time is more than the limit.  The limit is
    arbitrary; it may be zero. *)
Theorem find_root_soft_timeout
    (perf_counter : nat -> Q) (f : Q -> Q) (a0 b0 tolerance : Q)
    (is_increasing : bool) (y run_time_limit : Q) (n0 : nat)
    (k : nat) (a b : Q) (n : nat) :
  clock_monotone perf_counter ->
  a0 < b0 -> 0 < tolerance -> ~ f a0 == f b0 ->
  brackets perf_counter k f tolerance (loop_flag f a0 b0 y) y run_time_limit
    (perf_counter n0) a0 b0 (S n0) = Some (a, b, n) ->
  let c := (a + b) / 2 in
  let v := if Qeq_bool y 0 then f c else y - f c in
  ~ Qabs v <= tolerance ->
  run_time_limit < perf_counter n - perf_counter n0 ->
  forall fuel : nat, (k < fuel)%nat ->
    find_root perf_counter f a0 b0 tolerance is_increasing y run_time_limit
      fuel n0 =
    Returned ((c, perf_counter (S n) - perf_counter n0, v), S (S n))
    /\ find_root_traced perf_counter f a0 b0 tolerance is_increasing y
         run_time_limit fuel n0 =
       Returned ((TimedOut, (c, perf_counter (S n) - perf_counter n0, v)),
                 S (S n))
    /\ run_time_limit < perf_counter (S n) - perf_counter n0.
Proof.
  intros Hmono Hab Htol Hne Hk c v Hconv Hlate fuel Hfuel.
  destruct (find_root_traced_of_bracket perf_counter f a0 b0 tolerance
              is_increasing y run_time_limit n0 k a b n Hab Htol Hne Hk)
    as [_ Hout].
  pose proof (Hout Hconv Hlate fuel Hfuel) as Htraced.
  split; [| split].
  - rewrite find_root_erases. fold c v in Htraced. rewrite Htraced.
    reflexivity.
  - exact Htraced.
  - assert (Hstep : perf_counter n <= perf_counter (S n))
      by (apply Hmono; lia).
    lra.
Qed.

Lemma find_root_soft_timeout_witness :
  find_root ticking_clock function (-5) 5 (1 # 10) true 0 0 20 O =
    Returned ((0 # 2, 2, -64 # 8), 3%nat)
  /\ find_root_traced ticking_clock function (-5) 5 (1 # 10) true 0 0 20 O =
       Returned ((TimedOut, (0 # 2, 2, -64 # 8)), 3%nat)
  /\ 0 < ticking_clock 2 - ticking_clock 0.
Proof.
  apply (find_root_soft_timeout ticking_clock function (-5) 5 (1 # 10)
           true 0 0 O O (-5) 5 1%nat ticking_clock_monotone).
  - vm_compute. reflexivity.
  - vm_compute. reflexivity.
  - vm_compute. discriminate.
  - vm_compute. reflexivity.
  - vm_compute. intros H. apply H. reflexivity.
  - vm_compute. reflexivity.
  - lia.
Defined.

(** C8, as the code has it: over exact arithmetic.  When the loop of
    [find_root] has made [k] passes without leaving, the live bracket
    [(a, b)] has width exactly [(b0 - a0) / 2^k].  It is the bracket the
    call works on: if the value at its midpoint [c] is within the
    tolerance the call returns [c] through convergence; if not and the
    clock is past the limit it returns [c] through the time limit; and
    otherwise the next pass replaces exactly one end by [c], which lies
    strictly between the two, and halves the width again. *)
Theorem find_root_interval_halving
    (perf_counter : nat -> Q) (f : Q -> Q) (a0 b0 tolerance : Q)
    (is_increasing : bool) (y run_time_limit : Q) (n0 : nat)
    (k : nat) (a b : Q) (n : nat) :
  a0 < b0 -> 0 < tolerance -> ~ f a0 == f b0 ->
  brackets perf_counter k f tolerance (loop_flag f a0 b0 y) y run_time_limit
    (perf_counter n0) a0 b0 (S n0) = Some (a, b, n) ->
  let c := (a + b) / 2 in
  let v := if Qeq_bool y 0 then f c else y - f c in
  b - a == (b0 - a0) / 2 ^ Z.of_nat k
  /\ n = (n0 + k + 1)%nat
  /\ (Qabs v <= tolerance ->
      forall fuel : nat, (k < fuel)%nat ->
        find_root_traced perf_counter f a0 b0 tolerance is_increasing y
          run_time_limit fuel n0 =
        Returned ((Converged, (c, perf_counter n - perf_counter n0, v)),
                  S n))
  /\ (~ Qabs v <= tolerance ->
      run_time_limit < perf_counter n - perf_counter n0 ->
      forall fuel : nat, (k < fuel)%nat ->
        find_root_traced perf_counter f a0 b0 tolerance is_increasing y
          run_time_limit fuel n0 =
        Returned ((TimedOut,
                   (c, perf_counter (S n) - perf_counter n0, v)),
                  S (S n)))
  /\ (~ Qabs v <= tolerance ->
      ~ run_time_limit < perf_counter n - perf_counter n0 ->
      exists a' b' : Q,
        brackets perf_counter (S k) f tolerance (loop_flag f a0 b0 y) y
          run_time_limit (perf_counter n0) a0 b0 (S n0) =
        Some (a', b', S n)
        /\ ((a' = a /\ b' = c) \/ (a' = c /\ b' = b))
        /\ a < c /\ c < b
        /\ b' - a' == (b0 - a0) / 2 ^ Z.of_nat (S k)).
Proof.
  intros Hab Htol Hne Hk c v.
  destruct (find_root_traced_of_bracket perf_counter f a0 b0 tolerance
              is_increasing y run_time_limit n0 k a b n Hab Htol Hne Hk)
    as [Hconv Hout].
  destruct (brackets_nested _ _ _ _ _ _ _ _ _ _ _ _ _ _ Hab Hk)
    as [(H1 & H2 & H3) Hn].
  split; [exact (brackets_width _ _ _ _ _ _ _ _ _ _ _ _ _ _ Hk) |].
  split; [lia |].
  split; [exact Hconv |]. split; [exact Hout |].
  intros Hnc Hnl.
  change v with (func_midpoint_of f y c) in Hnc.
  pose proof (loop_body_again perf_counter f tolerance
                (loop_flag f a0 b0 y) y run_time_limit (perf_counter n0)
                a b n Hnc Hnl) as Hbody.
  pose proof (brackets_snoc _ _ _ _ _ _ _ _ _ _ _ _ _ _ _ _ _ Hk Hbody)
    as Hnext.
  destruct (loop_body_again_inv _ _ _ _ _ _ _ _ _ _ _ _ _ Hbody)
    as (Hends & _).
  destruct (midpoint_between a b H2) as [Hm1 Hm2].
  eexists _, _. split; [exact Hnext |].
  split; [exact Hends |]. split; [exact Hm1 |]. split; [exact Hm2 |].
  exact (brackets_width _ _ _ _ _ _ _ _ _ _ _ _ _ _ Hnext).
Qed.

Lemma find_root_interval_halving_witness :
  5 - (0 # 2) == (5 - -5) / 2 ^ Z.of_nat 1
  /\ 2%nat = (0 + 1 + 1)%nat
  /\ find_root_traced frozen_clock function (-5) 5 (1 # 2) true 0 60 2 O =
     Returned ((Converged, (10 # 4, 0, 8 # 64)), 3%nat).
Proof.
  destruct (find_root_interval_halving frozen_clock function (-5) 5 (1 # 2)
              true 0 60 O 1 (0 # 2) 5 2)
    as (Hwidth & Hticks & Hconv & _).
  - vm_compute. reflexivity.
  - vm_compute. reflexivity.
  - vm_compute. discriminate.
  - vm_compute. reflexivity.
  - split; [exact Hwidth | split; [exact Hticks |]].
    apply Hconv; [vm_compute; discriminate | lia].
Defined.

(** C8, as stated, fails on the numbers the code computes with.  On
    binary64 the check finds [x - 0.17] increasing on [[0.1, 0.2]]; the
    first midpoint is [0.15000000000000002], the value there is
    negative, and the bracket becomes [[0.15000000000000002, 0.2]], of
    width [0.049999999999999989], not [(0.2 - 0.1) / 2 = 0.05].  (The
    two subtractions and the halving are exact here, so the comparison is
    one of real numbers.) *)
Lemma f64_interval_not_halved :
  f64_check_strict_monotonicity f64_line
    0x1.999999999999ap-4%float 0x1.999999999999ap-3%float = Some true
  /\ f64_brackets f64_frozen_clock 1 f64_line 0x1p-20%float true 0%float
       60%float 0%float 0x1.999999999999ap-4%float
       0x1.999999999999ap-3%float 1 =
     Some (0x1.3333333333334p-3%float, 0x1.999999999999ap-3%float, 2%nat)
  /\ PrimFloat.eqb
       (PrimFloat.sub 0x1.999999999999ap-3%float 0x1.3333333333334p-3%float)
       (PrimFloat.div
          (PrimFloat.sub 0x1.999999999999ap-3%float
             0x1.999999999999ap-4%float)
          2%float) = false.
Proof.
  repeat split; vm_compute; reflexivity.
Qed.

(** C2.  Once the checks are passed, [find_root] runs its loop with the
    flag read off the endpoints ([f a0 < f b0] means increasing),
    inverted when [y] is not zero.  Let the loop have made [k] passes
    without leaving and let the value at the midpoint [c] of the live
    bracket ([f c] when [y] is zero, [y - f c] otherwise) be beyond the
    tolerance.  Then the nested [if] moves the bracket as the table of
    the specification says for that flag and the sign of the value; and
    when the time limit has not been passed it is this bracket the call
    goes on with: the next pass tests the value at its midpoint [c'] and,
    if the call leaves there, [c'] is what it returns. *)
Theorem find_root_bracket_update_follows_table
    (perf_counter : nat -> Q) (f : Q -> Q) (a0 b0 tolerance : Q)
    (is_increasing : bool) (y run_time_limit : Q) (n0 : nat)
    (k : nat) (a b : Q) (n : nat) :
  a0 < b0 -> 0 < tolerance -> ~ f a0 == f b0 ->
  let flag := loop_flag f a0 b0 y in
  brackets perf_counter k f tolerance flag y run_time_limit
    (perf_counter n0) a0 b0 (S n0) = Some (a, b, n) ->
  let c := (a + b) / 2 in
  let v := if Qeq_bool y 0 then f c else y - f c in
  ~ Qabs v <= tolerance ->
  let next :=
    spec_bracket_update (monotonicity_of flag)
      (if Qlt_bool 0 v then positive else negative_or_zero) a b c in
  let c' := (fst next + snd next) / 2 in
  let v' := if Qeq_bool y 0 then f c' else y - f c' in
  (y == 0 -> (flag = true <-> f a0 < f b0))
  /\ (~ y == 0 -> (flag = true <-> f b0 < f a0))
  /\ bracket_update flag v a b c = next
  /\ (~ run_time_limit < perf_counter n - perf_counter n0 ->
      brackets perf_counter (S k) f tolerance flag y run_time_limit
        (perf_counter n0) a0 b0 (S n0) = Some (fst next, snd next, S n)
      /\ (Qabs v' <= tolerance ->
          forall fuel : nat, (S k < fuel)%nat ->
            find_root_traced perf_counter f a0 b0 tolerance is_increasing
              y run_time_limit fuel n0 =
            Returned ((Converged,
                       (c', perf_counter (S n) - perf_counter n0, v')),
                      S (S n)))
      /\ (~ Qabs v' <= tolerance ->
          run_time_limit < perf_counter (S n) - perf_counter n0 ->
          forall fuel : nat, (S k < fuel)%nat ->
            find_root_traced perf_counter f a0 b0 tolerance is_increasing
              y run_time_limit fuel n0 =
            Returned ((TimedOut,
                       (c', perf_counter (S (S n)) - perf_counter n0, v')),
                      S (S (S n))))).
Proof.
  intros Hab Htol Hne flag Hk c v Hconv next c' v'.
  destruct (loop_flag_meaning f a0 b0 y Hne) as [Hzero Hnonzero].
  assert (Hupd : bracket_update flag v a b c = next).
  { destruct (bracket_update_table flag v a b c) as [Hpos Hneg].
    unfold next.
    destruct (Qlt_bool_spec 0 v) as [Hv | Hv].
    - apply Hpos. exact Hv.
    - apply Hneg. lra. }
  split; [exact Hzero |]. split; [exact Hnonzero |].
  split; [exact Hupd |].
  intros Hnl.
  change v with (func_midpoint_of f y c) in Hconv, Hupd.
  pose proof (loop_body_again perf_counter f tolerance flag y
                run_time_limit (perf_counter n0) a b n Hconv Hnl) as Hbody.
  fold c in Hbody. rewrite Hupd in Hbody.
  pose proof (brackets_snoc _ _ _ _ _ _ _ _ _ _ _ _ _ _ _ _ _ Hk Hbody)
    as Hnext.
  split; [exact Hnext |].
  exact (find_root_traced_of_bracket perf_counter f a0 b0 tolerance
           is_increasing y run_time_limit n0 (S k) (fst next) (snd next)
           (S n) Hab Htol Hne Hnext).
Qed.

Lemma find_root_bracket_update_follows_table_witness :
  bracket_update true (-27 # 64) (0 # 2) (10 # 4) (20 # 16) =
    (20 # 16, 10 # 4)
  /\ brackets frozen_clock 3 function (1 # 10) true 0 60 0 (-5) 5 1 =
     Some (20 # 16, 10 # 4, 4%nat)
  /\ find_root_traced frozen_clock function (-5) 5 (1 # 10) true 0 60 4 O =
     Returned ((Converged, (240 # 128, 0, -4096 # 2097152)), 5%nat).
Proof.
  destruct (find_root_bracket_update_follows_table frozen_clock function
              (-5) 5 (1 # 10) true 0 60 O 2 (0 # 2) (10 # 4) 3)
    as (_ & _ & Hupd & Hnext).
  - vm_compute. reflexivity.
  - vm_compute. reflexivity.
  - vm_compute. discriminate.
  - vm_compute. reflexivity.
  - vm_compute. intros H. apply H. reflexivity.
  - destruct Hnext as (Hbr & Hconv & _).
    + vm_compute. discriminate.
    + split; [exact Hupd | split; [exact Hbr |]].
      apply Hconv; [vm_compute; discriminate | lia].
Defined.



